(** * VideoRAG desktop: backend lifecycle, remote backend and model handlers

    A shallow embedding of the TypeScript sources of the Vimo desktop client:

    - [Hook]: the React hook [useVideoRAGService] (service state, busy flags,
      the six controller operations);
    - [Remote]: [RemoteVideoService] and the [remote-backend:*] IPC handlers;
    - [Upload]: the upload page ([handleUpload], [handleProcess] and the
      polling of the job status);
    - [Backend]: the connection test of the backend settings card;
    - [Models]: the [check-model-files] and [download-internvideo2] IPC
      handlers of the main process, over a small tree-shaped file system;
    - [Wizard]: the model steps of the initialization wizard, which call
      those two handlers.

    JavaScript values keep their dynamic nature ([JS.value]); numbers are
    IEEE-754 doubles ([PrimFloat.float]), objects are finite maps from
    property names to values.  Code that can throw is written in a state
    monad with exceptions ([Eff.eff]), so that [try]/[catch]/[finally] of the
    source are visible in the model. *)

From Stdlib Require Import PrimFloat.
From stdpp Require Import gmap strings pretty list fin_maps.

Set Warnings "-register-all,-inexact-float".

(* ===================================================================== *)
(** * Part I: the model *)
(* ===================================================================== *)

(** ** Exceptions and state *)

Module Eff.

(** The completion of a piece of JavaScript: a value, or a thrown error
    (of which only the message is kept). *)
Inductive outcome (A : Type) : Type :=
| Returns (a : A)
| Throws (msg : string).
Global Arguments Returns {A} a.
Global Arguments Throws {A} msg.

Definition returned {A} (o : outcome A) : bool :=
  match o with Returns _ => true | Throws _ => false end.

(** Computations over a store [S] that may throw. *)
Definition eff (S A : Type) : Type := S → outcome A * S.

Definition ret {S A} (a : A) : eff S A := λ s, (Returns a, s).

Definition bind {S A B} (m : eff S A) (k : A → eff S B) : eff S B :=
  λ s, match m s with
       | (Returns a, s') => k a s'
       | (Throws e, s') => (Throws e, s')
       end.

Definition throw {S A} (msg : string) : eff S A := λ s, (Throws msg, s).

(** A completion obtained elsewhere (the settlement of an awaited
    promise) re-entering the computation. *)
Definition resume {S A} (o : outcome A) : eff S A := λ s, (o, s).

Definition modify {S} (f : S → S) : eff S unit := λ s, (Returns tt, f s).

Definition gets {S A} (f : S → A) : eff S A := λ s, (Returns (f s), s).

(** [try { m } catch (error) { h error.message }] *)
Definition try_catch {S A} (m : eff S A) (h : string → eff S A) : eff S A :=
  λ s, match m s with
       | (Returns a, s') => (Returns a, s')
       | (Throws e, s') => h e s'
       end.

(** [try { m } finally { c }]: [c] runs on both exits; the completion of
    [m] is kept unless [c] itself throws. *)
Definition finally {S A} (m : eff S A) (c : eff S unit) : eff S A :=
  λ s, match m s with
       | (o, s') => match c s' with
                    | (Returns _, s'') => (o, s'')
                    | (Throws e, s'') => (Throws e, s'')
                    end
       end.

Global Instance eff_ret {S} : MRet (eff S) := λ A, ret.
Global Instance eff_bind {S} : MBind (eff S) := λ A B k m, bind m k.

End Eff.

Import Eff.

(** ** JavaScript values *)

Module JS.

Inductive value : Type :=
| Undefined
| Null
| Bool (b : bool)
| Num (x : float)
| Str (s : string)
| Obj (fields : gmap string value).

(** ToBoolean: [undefined], [null], [false], [0], [-0], [NaN] and the empty
    string are falsy, everything else (objects included) is truthy. *)
Definition truthy (v : value) : bool :=
  match v with
  | Undefined | Null => false
  | Bool b => b
  | Num x => negb (PrimFloat.eqb x 0 || PrimFloat.is_nan x)
  | Str s => negb (String.eqb s "")
  | Obj _ => true
  end.

(** [a || b] *)
Definition or (a b : value) : value := if truthy a then a else b.

(** [v !== false] and [v !== undefined] *)
Definition is_not_false (v : value) : bool :=
  match v with Bool false => false | _ => true end.

Definition is_not_undefined (v : value) : bool :=
  match v with Undefined => false | _ => true end.

Definition nullish (v : value) : bool :=
  match v with Undefined | Null => true | _ => false end.

(** Own property of an object literal; a missing key reads [undefined]. *)
Definition get (o : gmap string value) (k : string) : value :=
  default Undefined (o !! k).

(** [v.k]: a TypeError on [undefined] and [null] (V8's wording), the
    property for an object; the primitives met here carry none of the
    properties the sources read. *)
Definition member {S} (v : value) (k : string) : eff S value :=
  match v with
  | Undefined =>
      throw ("Cannot read properties of undefined (reading '" +:+ k +:+ "')")
  | Null =>
      throw ("Cannot read properties of null (reading '" +:+ k +:+ "')")
  | Obj o => ret (get o k)
  | _ => ret Undefined
  end.

(** [v?.k] *)
Definition opt_member (v : value) (k : string) : value :=
  match v with
  | Obj o => get o k
  | _ => Undefined
  end.

(** [s || d] on an optional string ([undefined] or a string). *)
Definition str_or (s : option string) (d : string) : string :=
  match s with
  | Some x => if String.eqb x "" then d else x
  | None => d
  end.

(** [v === 'literal'] *)
Definition is_string (v : value) (s : string) : bool :=
  match v with
  | Str x => String.eqb x s
  | _ => false
  end.

(** A destructured parameter, [({ k, ... }) => ...]: a TypeError when the
    argument is [undefined] or [null] (V8's wording), the property
    otherwise. *)
Definition destructure {S} (v : value) (k : string) : eff S value :=
  match v with
  | Undefined =>
      throw ("Cannot destructure property '" +:+ k
             +:+ "' of 'undefined' as it is undefined.")
  | Null =>
      throw ("Cannot destructure property '" +:+ k +:+ "' of 'null' as it is null.")
  | Obj o => ret (get o k)
  | _ => ret Undefined
  end.

(** [{ ...v }]: the properties of an object, the characters of a string
    under their indices, nothing for the other values ([undefined] and
    [null] included). *)
Definition spread (v : value) : gmap string value :=
  match v with
  | Obj o => o
  | Str s =>
      list_to_map
        (imap (λ (i : nat) c, (pretty i, Str (String c EmptyString)))
              (String.list_ascii_of_string s))
  | _ => ∅
  end.

(** *** JSON

    The document [JSON.stringify] writes, up to its concrete syntax (the
    order of the members, the spelling of the numbers). *)
Inductive json : Type :=
| JNull
| JBool (b : bool)
| JNum (x : float)
| JStr (s : string)
| JObj (members : gmap string json).

(** [JSON.stringify] on a value inside an object: a member whose value is
    [undefined] is left out ([None]); [NaN] and the infinities are written
    [null]; [-0] is written [0]. *)
Fixpoint stringify (v : value) : option json :=
  match v with
  | Undefined => None
  | Null => Some JNull
  | Bool b => Some (JBool b)
  | Num x =>
      Some (if PrimFloat.is_finite x
            then JNum (if PrimFloat.eqb x 0 then 0%float else x)
            else JNull)
  | Str s => Some (JStr s)
  | Obj fields => Some (JObj (omap stringify fields))
  end.

(** [JSON.stringify(o)] for an object [o]. *)
Definition encode (o : gmap string value) : json := JObj (omap stringify o).

End JS.

(** ** The hook [useVideoRAGService] *)

Module Hook.

Record ServiceState : Type := mkServiceState {
  isRunning : bool;
  internvideo2Loaded : bool;
  message : option string;
  error : option string
}.

Record LoadingFlags : Type := mkLoading {
  starting : bool;
  stopping : bool;
  checkingService : bool;
  loadingInternVideo2 : bool;
  releasingInternVideo2 : bool
}.

(** The [window.api.videorag] endpoints the hook reaches over IPC. *)
Inductive Endpoint : Type :=
| systemStatus
| startServiceApi
| stopServiceApi
| loadInternVideo2Api
| releaseInternVideo2Api
| internvideo2Status.

Global Instance Endpoint_eq_dec : EqDecision Endpoint.
Proof. solve_decision. Defined.

(** The envelope every endpoint resolves with:
    [{ success, data?, message?, error? }]. *)
Record IpcResult : Type := mkIpc {
  success : bool;
  data : JS.value;
  ipc_message : option string;
  ipc_error : option string
}.

(** What the two [useState] cells hold, the IPC invocations issued so far
    (oldest first) and what went to [console.error]. *)
Record State : Type := mkState {
  serviceState : ServiceState;
  loading : LoadingFlags;
  invoked : list Endpoint;
  console : list string
}.

(** [{ ...prev, field: v }] for each field the hook writes. *)
Definition with_isRunning (b : bool) (s : ServiceState) : ServiceState :=
  mkServiceState b (internvideo2Loaded s) (message s) (error s).
Definition with_internvideo2Loaded (b : bool) (s : ServiceState) : ServiceState :=
  mkServiceState (isRunning s) b (message s) (error s).
Definition with_message (m : option string) (s : ServiceState) : ServiceState :=
  mkServiceState (isRunning s) (internvideo2Loaded s) m (error s).
Definition with_error (e : option string) (s : ServiceState) : ServiceState :=
  mkServiceState (isRunning s) (internvideo2Loaded s) (message s) e.

Definition with_starting (b : bool) (l : LoadingFlags) : LoadingFlags :=
  mkLoading b (stopping l) (checkingService l) (loadingInternVideo2 l)
            (releasingInternVideo2 l).
Definition with_stopping (b : bool) (l : LoadingFlags) : LoadingFlags :=
  mkLoading (starting l) b (checkingService l) (loadingInternVideo2 l)
            (releasingInternVideo2 l).
Definition with_checkingService (b : bool) (l : LoadingFlags) : LoadingFlags :=
  mkLoading (starting l) (stopping l) b (loadingInternVideo2 l)
            (releasingInternVideo2 l).
Definition with_loadingInternVideo2 (b : bool) (l : LoadingFlags) : LoadingFlags :=
  mkLoading (starting l) (stopping l) (checkingService l) b
            (releasingInternVideo2 l).
Definition with_releasingInternVideo2 (b : bool) (l : LoadingFlags) : LoadingFlags :=
  mkLoading (starting l) (stopping l) (checkingService l)
            (loadingInternVideo2 l) b.

(** [setServiceState(prev => f prev)] and [setLoading(prev => f prev)]:
    functional updates, applied to the latest state. *)
Definition setServiceState (f : ServiceState → ServiceState) : eff State unit :=
  modify (λ st, mkState (f (serviceState st)) (loading st) (invoked st) (console st)).
Definition setLoading (f : LoadingFlags → LoadingFlags) : eff State unit :=
  modify (λ st, mkState (serviceState st) (f (loading st)) (invoked st) (console st)).
Definition invoke (e : Endpoint) : eff State unit :=
  modify (λ st, mkState (serviceState st) (loading st) (invoked st ++ [e]) (console st)).
Definition console_error (line : string) : eff State unit :=
  modify (λ st, mkState (serviceState st) (loading st) (invoked st) (console st ++ [line])).

(** The state [useState] is initialised with. *)
Definition initial : State :=
  mkState (mkServiceState false false None None)
          (mkLoading false false false false false) [] [].

(** Every operation is an [async] function with a single [await], on the
    IPC call.  Its body is given in two pieces: what runs up to the point
    where the call has been issued ([_begin]), and what runs once the
    promise has settled ([_resume], which receives the settlement: the
    envelope, or the rejection).  Nothing of the hook runs in between, but
    other operations may. *)

(** *** [checkServiceStatus] *)

Definition checkServiceStatus_begin : eff State unit :=
  setLoading (with_checkingService true) ;;
  invoke systemStatus.

Definition checkServiceStatus_resume (settled : outcome IpcResult) : eff State unit :=
  finally
    (try_catch
       (result ← resume settled;
        if success result && JS.truthy (data result) then
          total_sessions ← JS.member (data result) "total_sessions";
          global_config_set ← JS.member (data result) "global_config_set";
          internvideo2_loaded ← JS.member (data result) "internvideo2_loaded";
          setServiceState (λ prev,
            with_message
              (Some (if JS.truthy internvideo2_loaded
                     then "Service ready for video processing"
                     else "Service running - InternVideo2 not loaded"))
              (with_internvideo2Loaded
                 (JS.truthy (JS.or internvideo2_loaded (JS.Bool false)))
                 (with_isRunning
                    (JS.is_not_undefined total_sessions
                     || JS.truthy global_config_set)
                    prev)))
        else
          setServiceState (λ prev,
            with_error
              (Some (JS.str_or (ipc_error result) "Failed to get system status"))
              (with_internvideo2Loaded false (with_isRunning false prev))))
       (λ _,
          setServiceState (λ prev,
            with_error (Some "Failed to check service status")
              (with_internvideo2Loaded false (with_isRunning false prev)))))
    (setLoading (with_checkingService false)).

(** *** [startService] *)

Definition startService_begin : eff State unit :=
  setLoading (with_starting true) ;;
  invoke startServiceApi.

Definition startService_resume (settled : outcome IpcResult) : eff State bool :=
  finally
    (try_catch
       (result ← resume settled;
        if success result then
          setServiceState (λ prev,
            with_message (ipc_message result) (with_isRunning true prev)) ;;
          mret true
        else
          setServiceState (λ prev,
            with_error (ipc_error result) (with_isRunning false prev)) ;;
          mret false)
       (λ _,
          setServiceState (λ prev,
            with_error (Some "Failed to start service")
              (with_isRunning false prev)) ;;
          mret false))
    (setLoading (with_starting false)).

(** *** [stopService] *)

Definition stopService_begin : eff State unit :=
  setLoading (with_stopping true) ;;
  invoke stopServiceApi.

Definition stopService_resume (settled : outcome IpcResult) : eff State bool :=
  finally
    (try_catch
       (result ← resume settled;
        if success result then
          setServiceState (λ prev,
            with_message (ipc_message result) (with_isRunning false prev)) ;;
          mret true
        else
          setServiceState (λ prev,
            with_error (ipc_error result) (with_isRunning false prev)) ;;
          mret false)
       (λ _,
          setServiceState (λ prev,
            with_error (Some "Failed to stop service")
              (with_isRunning false prev)) ;;
          mret false))
    (setLoading (with_stopping false)).

(** *** [loadInternVideo2] *)

Definition loadInternVideo2_begin : eff State unit :=
  setLoading (with_loadingInternVideo2 true) ;;
  invoke loadInternVideo2Api.

Definition loadInternVideo2_resume (settled : outcome IpcResult) : eff State bool :=
  finally
    (try_catch
       (result ← resume settled;
        if success result then
          setServiceState (λ prev,
            with_message (Some "InternVideo2 model loaded successfully")
              (with_internvideo2Loaded true prev)) ;;
          mret true
        else
          setServiceState (λ prev, with_error (ipc_error result) prev) ;;
          mret false)
       (λ _,
          setServiceState (λ prev,
            with_error (Some "Failed to load InternVideo2 model") prev) ;;
          mret false))
    (setLoading (with_loadingInternVideo2 false)).

(** *** [releaseInternVideo2] *)

Definition releaseInternVideo2_begin : eff State unit :=
  setLoading (with_releasingInternVideo2 true) ;;
  invoke releaseInternVideo2Api.

Definition releaseInternVideo2_resume (settled : outcome IpcResult) : eff State bool :=
  finally
    (try_catch
       (result ← resume settled;
        if success result then
          setServiceState (λ prev,
            with_message (Some "InternVideo2 model released successfully")
              (with_internvideo2Loaded false prev)) ;;
          mret true
        else
          setServiceState (λ prev, with_error (ipc_error result) prev) ;;
          mret false)
       (λ _,
          setServiceState (λ prev,
            with_error (Some "Failed to release InternVideo2 model") prev) ;;
          mret false))
    (setLoading (with_releasingInternVideo2 false)).

(** *** [checkInternVideo2Status] *)

Definition checkInternVideo2Status_begin : eff State unit :=
  invoke internvideo2Status.

Definition checkInternVideo2Status_resume (settled : outcome IpcResult) : eff State unit :=
  try_catch
    (result ← resume settled;
     if success result then
       setServiceState (λ prev,
         with_internvideo2Loaded
           (JS.truthy (JS.or (JS.opt_member (data result) "loaded") (JS.Bool false)))
           prev)
     else mret tt)
    (λ error, console_error ("Failed to check InternVideo2 status: " +:+ error)).

(** *** Operations, runs, interleavings *)

Inductive Op : Type :=
| checkServiceStatus
| startService
| stopService
| loadInternVideo2
| releaseInternVideo2
| checkInternVideo2Status.

Global Instance Op_eq_dec : EqDecision Op.
Proof. solve_decision. Defined.

Definition endpoint (op : Op) : Endpoint :=
  match op with
  | checkServiceStatus => systemStatus
  | startService => startServiceApi
  | stopService => stopServiceApi
  | loadInternVideo2 => loadInternVideo2Api
  | releaseInternVideo2 => releaseInternVideo2Api
  | checkInternVideo2Status => internvideo2Status
  end.

Definition begin (op : Op) : eff State unit :=
  match op with
  | checkServiceStatus => checkServiceStatus_begin
  | startService => startService_begin
  | stopService => stopService_begin
  | loadInternVideo2 => loadInternVideo2_begin
  | releaseInternVideo2 => releaseInternVideo2_begin
  | checkInternVideo2Status => checkInternVideo2Status_begin
  end.

(** What the operation's promise resolves with: a boolean for the four
    commands, [undefined] ([None]) for the two status checks. *)
Definition settle (op : Op) (settled : outcome IpcResult) : eff State (option bool) :=
  match op with
  | checkServiceStatus => checkServiceStatus_resume settled ;; mret None
  | startService => b ← startService_resume settled; mret (Some b)
  | stopService => b ← stopService_resume settled; mret (Some b)
  | loadInternVideo2 => b ← loadInternVideo2_resume settled; mret (Some b)
  | releaseInternVideo2 => b ← releaseInternVideo2_resume settled; mret (Some b)
  | checkInternVideo2Status => checkInternVideo2Status_resume settled ;; mret None
  end.

(** An operation run to completion with nothing in between. *)
Definition call (op : Op) (settled : outcome IpcResult) : eff State (option bool) :=
  begin op ;; settle op settled.

(** Interleaved executions: the UI calls an operation, or the IPC promise
    of a pending operation settles. *)
Inductive event : Type :=
| Call (op : Op)
| Settle (op : Op) (settled : outcome IpcResult).

Record Session : Type := mkSession {
  hook : State;
  pending : list Op;
  results : list (Op * outcome (option bool))
}.

Definition fresh : Session := mkSession initial [] [].

Fixpoint take_out (op : Op) (ops : list Op) : list Op :=
  match ops with
  | [] => []
  | o :: rest => if decide (o = op) then rest else o :: take_out op rest
  end.

Definition step (s : Session) (e : event) : option Session :=
  match e with
  | Call op =>
      Some (mkSession (begin op (hook s)).2 (pending s ++ [op]) (results s))
  | Settle op settled =>
      if decide (op ∈ pending s) then
        let r := settle op settled (hook s) in
        Some (mkSession r.2 (take_out op (pending s)) (results s ++ [(op, r.1)]))
      else None
  end.

Fixpoint run (s : Session) (trace : list event) : option Session :=
  match trace with
  | [] => Some s
  | e :: rest => match step s e with
                 | Some s' => run s' rest
                 | None => None
                 end
  end.

Definition calls (trace : list event) : list Op :=
  omap (λ e, match e with Call op => Some op | Settle _ _ => None end) trace.

(** *** Sample settlements *)

Definition succeeded : outcome IpcResult :=
  Returns (mkIpc true JS.Undefined (Some "ok") None).

Definition ready_snapshot : outcome IpcResult :=
  Returns (mkIpc true
             (JS.Obj {[ "total_sessions" := JS.Num 0;
                        "internvideo2_loaded" := JS.Bool true ]})
             None None).

Definition orderly_trace : list event :=
  [ Call startService; Settle startService succeeded;
    Call loadInternVideo2; Call checkServiceStatus;
    Settle loadInternVideo2 succeeded; Settle checkServiceStatus ready_snapshot;
    Call releaseInternVideo2; Settle releaseInternVideo2 succeeded;
    Call stopService; Settle stopService succeeded ].

(** *** Vocabulary for the properties *)

(** A loaded model is believed only of a running service. *)
Definition coherent (st : State) : bool :=
  implb (internvideo2Loaded (serviceState st)) (isRunning (serviceState st)).

(** What a [systemStatus] snapshot says, read the way [checkServiceStatus]
    reads it. *)
Definition snapshot_loaded (d : JS.value) : bool :=
  JS.truthy (JS.opt_member d "internvideo2_loaded").
Definition snapshot_running (d : JS.value) : bool :=
  JS.is_not_undefined (JS.opt_member d "total_sessions")
  || JS.truthy (JS.opt_member d "global_config_set").

(** The discipline under which the hook keeps [coherent]; it bears on what
    settles and on the state it settles in, and is the callers' and the
    backend's to follow, the hook checks none of it:
    - a model is reported loaded only to a hook that believes the service
      running ([loadInternVideo2] succeeding, [checkInternVideo2Status]
      answering [loaded]);
    - a [systemStatus] snapshot that has the model loaded also shows the
      service running;
    - the service is declared down ([stopService] settling, [startService]
      failing) only while no model is believed loaded. *)
Definition disciplined (st : State) (e : event) : bool :=
  let running := isRunning (serviceState st) in
  let loaded := internvideo2Loaded (serviceState st) in
  match e with
  | Call _ => true
  | Settle op (Throws _) =>
      match op with
      | startService | stopService => negb loaded
      | _ => true
      end
  | Settle op (Returns result) =>
      match op with
      | checkServiceStatus =>
          if success result && JS.truthy (data result)
          then implb (snapshot_loaded (data result)) (snapshot_running (data result))
          else true
      | startService => success result || negb loaded
      | stopService => negb loaded
      | loadInternVideo2 => implb (success result) running
      | releaseInternVideo2 => true
      | checkInternVideo2Status =>
          implb (success result
                 && JS.truthy (JS.or (JS.opt_member (data result) "loaded")
                                     (JS.Bool false)))
                running
      end
  end.

Fixpoint disciplined_run (s : Session) (trace : list event) : bool :=
  match trace with
  | [] => true
  | e :: rest =>
      disciplined (hook s) e
      && match step s e with
         | Some s' => disciplined_run s' rest
         | None => false
         end
  end.

(** The busy flag an operation owns; [checkInternVideo2Status] owns none. *)
Definition busy (l : LoadingFlags) (op : Op) : bool :=
  match op with
  | checkServiceStatus => checkingService l
  | startService => starting l
  | stopService => stopping l
  | loadInternVideo2 => loadingInternVideo2 l
  | releaseInternVideo2 => releasingInternVideo2 l
  | checkInternVideo2Status => false
  end.

Definition idle : LoadingFlags := mkLoading false false false false false.

(** Whether a settlement is a success envelope. *)
Definition succeeds (settled : outcome IpcResult) : bool :=
  match settled with
  | Returns result => success result
  | Throws _ => false
  end.

(** A run with overlapping operations, two of them failing. *)
Definition busy_trace : list event :=
  [ Call startService; Call checkServiceStatus; Call startService;
    Settle checkServiceStatus (Throws "timeout");
    Settle startService succeeded;
    Call loadInternVideo2;
    Settle startService (Returns (mkIpc false JS.Undefined None (Some "already starting")));
    Settle loadInternVideo2 succeeded ].

End Hook.

(** ** [RemoteVideoService] and the [remote-backend:*] handlers *)

Module Remote.

Record RemoteVideoService : Type := mkService {
  baseUrl : string;
  apiKey : option string
}.

(** An HTTP request as it leaves the client: the method, the URL, the
    [Authorization] header if any, and the JSON document that carries the
    configuration (the [config] form field of an upload, the body of a
    processing request). *)
Record Request : Type := mkRequest {
  method : string;
  url : string;
  authorization : option string;
  sent_config : option JS.json
}.

(** What [fetch] resolves with, as far as the service looks at it. *)
Record Response : Type := mkResponse {
  ok : bool;
  statusText : string;
  json : outcome JS.value
}.

(** The envelope the IPC handlers return. *)
Record Envelope : Type := mkEnvelope {
  success : bool;
  data : JS.value;
  error : option string
}.

(** Observable effects: requests that went out, console lines. *)
Record Net : Type := mkNet {
  requests : list Request;
  console : list string
}.

Definition offline : Net := mkNet [] [].

Definition send (r : Request) : eff Net unit :=
  modify (λ n, mkNet (requests n ++ [r]) (console n)).
Definition console_log (line : string) : eff Net unit :=
  modify (λ n, mkNet (requests n) (console n ++ [line])).

(** [await fetch(...)]: the request goes out, then the promise settles. *)
Definition fetch (r : Request) (settled : outcome Response) : eff Net Response :=
  send r ;; resume settled.

(** [...(this.apiKey && { 'Authorization': `Bearer ${this.apiKey}` })] *)
Definition bearer (this : RemoteVideoService) : option string :=
  match apiKey this with
  | Some k => if String.eqb k "" then None else Some ("Bearer " +:+ k)
  | None => None
  end.

(** An optional configuration argument: [undefined], or an object. *)
Definition of_config (config : option (gmap string JS.value)) : JS.value :=
  match config with
  | Some c => JS.Obj c
  | None => JS.Undefined
  end.

(** [{ ...config }] *)
Definition spread (config : option (gmap string JS.value)) : gmap string JS.value :=
  default ∅ config.

(** [uploadVideo], lines 42-50: the object literal [uploadConfig].  Later
    keys of the literal overwrite earlier ones. *)
Definition uploadConfig (config : option (gmap string JS.value)) : gmap string JS.value :=
  let c := of_config config in
  <["max_duration" := JS.or (JS.opt_member c "max_duration") (JS.Num 12.0)]>
 (<["min_duration" := JS.or (JS.opt_member c "min_duration") (JS.Num 5.0)]>
 (<["scene_threshold" := JS.or (JS.opt_member c "scene_threshold") (JS.Num 0.2)]>
 (<["detect_scenes" := JS.Bool (JS.is_not_false (JS.opt_member c "detect_scenes"))]>
 (<["target_fps" := JS.Num 1]>
 (spread config))))).

(** [uploadVideo] up to [xhr.send(formData)]: the request that is issued,
    with [JSON.stringify(uploadConfig)] in its [config] field (line 52).
    The listeners that turn the server's answer into an [UploadResult] run
    afterwards and do not act on the request. *)
Definition uploadVideo_send (this : RemoteVideoService)
    (config : option (gmap string JS.value)) : eff Net unit :=
  send (mkRequest "POST" (baseUrl this +:+ "/api/upload/video") (bearer this)
                  (Some (JS.encode (uploadConfig config)))).

(** [processVideo]: the body is [JSON.stringify(config)] (line 169). *)
Definition processVideo (this : RemoteVideoService) (jobId : string)
    (config : gmap string JS.value) (settled : outcome Response) : eff Net JS.value :=
  try_catch
    (response ← fetch (mkRequest "POST"
                         (baseUrl this +:+ "/api/jobs/" +:+ jobId +:+ "/process")
                         (bearer this) (Some (JS.encode config))) settled;
     if negb (ok response)
     then throw ("Failed to start processing: " +:+ statusText response)
     else resume (json response))
    (λ error, throw ("Failed to start processing: " +:+ error)).

(** [checkHealth] *)
Definition checkHealth (this : RemoteVideoService)
    (settled : outcome Response) : eff Net bool :=
  try_catch
    (response ← fetch (mkRequest "GET" (baseUrl this +:+ "/api/health") None None)
                      settled;
     mret (ok response))
    (λ _, mret false).

(** *** IPC handlers of the main process *)

Definition upload_refusal : string :=
  "Frontend should use RemoteVideoService directly. IPC cannot handle File objects.".

(** ['remote-backend:upload-video']; [args] is the argument of the IPC
    call.  The parameter list destructures it, [{ file, config, onProgress }],
    before the [try] is entered: without an argument object the handler's
    promise rejects. *)
Definition upload_video_handler (args : JS.value) : eff Net Envelope :=
  file ← JS.destructure args "file";
  config ← JS.destructure args "config";
  onProgress ← JS.destructure args "onProgress";
  try_catch
    (name ← JS.member file "name";
     console_log "Uploading video to remote backend:" ;;
     mret (mkEnvelope false JS.Undefined (Some upload_refusal)))
    (λ error,
       console_log ("Remote upload error: " +:+ error) ;;
       mret (mkEnvelope false JS.Undefined (Some error))).

(** ['remote-backend:process-video'], lines 53-61: [processConfig].  Unlike
    [uploadConfig] the properties are read without [?.], so a missing
    configuration throws (the spread before them does not). *)
Definition processConfig (config : JS.value) : eff Net (gmap string JS.value) :=
  detect_scenes ← JS.member config "detect_scenes";
  scene_threshold ← JS.member config "scene_threshold";
  min_duration ← JS.member config "min_duration";
  max_duration ← JS.member config "max_duration";
  generate_embeddings ← JS.member config "generate_embeddings";
  mret (<["generate_embeddings" := JS.Bool (JS.is_not_false generate_embeddings)]>
       (<["max_duration" := JS.or max_duration (JS.Num 12.0)]>
       (<["min_duration" := JS.or min_duration (JS.Num 5.0)]>
       (<["scene_threshold" := JS.or scene_threshold (JS.Num 0.2)]>
       (<["detect_scenes" := JS.Bool (JS.is_not_false detect_scenes)]>
       (<["target_fps" := JS.Num 1]>
       (JS.spread config))))))).

(** The handler; [args] is the argument of the IPC call, destructured as
    [{ jobId, config }] in the parameter list, before the [try];
    [constructed] is the completion of [new RemoteVideoService()], which
    reads the saved configuration; [render] is the engine's conversion of
    the job id into the text of the request's URL. *)
Definition process_video_handler (constructed : outcome RemoteVideoService)
    (render : JS.value → string) (args : JS.value)
    (settled : outcome Response) : eff Net Envelope :=
  jobId ← JS.destructure args "jobId";
  config ← JS.destructure args "config";
  try_catch
    (service ← resume constructed;
     cfg ← processConfig config;
     result ← processVideo service (render jobId) cfg settled;
     mret (mkEnvelope true result None))
    (λ error,
       console_log ("Process video error: " +:+ error) ;;
       mret (mkEnvelope false JS.Undefined (Some error))).

(** ['remote-backend:check-health'] *)
Definition check_health_handler (constructed : outcome RemoteVideoService)
    (settled : outcome Response) : eff Net Envelope :=
  try_catch
    (service ← resume constructed;
     isHealthy ← checkHealth service settled;
     mret (mkEnvelope true (JS.Bool isHealthy) None))
    (λ error,
       console_log ("Health check error: " +:+ error) ;;
       mret (mkEnvelope false JS.Undefined (Some error))).

(** *** The rest of the service and of the handlers *)

(** [getJobStatus] *)
Definition getJobStatus (this : RemoteVideoService) (jobId : string)
    (settled : outcome Response) : eff Net JS.value :=
  try_catch
    (response ← fetch (mkRequest "GET" (baseUrl this +:+ "/api/jobs/" +:+ jobId)
                                 (bearer this) None) settled;
     if negb (ok response)
     then throw ("Failed to get job status: " +:+ statusText response)
     else resume (json response))
    (λ error, throw ("Failed to get job status: " +:+ error)).

(** [getBaseUrl] *)
Definition getBaseUrl (this : RemoteVideoService) : string := baseUrl this.

(** What the XMLHttpRequest of [uploadVideo] ends with: the [load] event,
    with the status and the completion of [JSON.parse(xhr.responseText)], or
    the [error] event. *)
Inductive XhrEvent : Type :=
| xhr_load (status : Z) (parsed : outcome JS.value)
| xhr_error.

Record UploadResult : Type := mkUpload {
  up_success : bool;
  fileId : JS.value;
  job_id : JS.value;
  up_message : JS.value;
  up_error : JS.value
}.

Definition upload_failed (reason : JS.value) : UploadResult :=
  mkUpload false JS.Undefined JS.Undefined JS.Undefined reason.

(** The [load] and [error] listeners of [uploadVideo], lines 73-111: what
    the promise resolves with.  (The progress listener is left out: it only
    calls [onProgress].) *)
Definition uploadVideo_complete (ev : XhrEvent) : eff Net UploadResult :=
  match ev with
  | xhr_load status parsed =>
      if (status =? 200)%Z then
        try_catch
          (response ← resume parsed;
           file_id ← JS.member response "file_id";
           job ← JS.member response "job_id";
           msg ← JS.member response "message";
           mret (mkUpload true file_id job msg JS.Undefined))
          (λ _, mret (upload_failed (JS.Str "Invalid response from server")))
      else
        try_catch
          (errorResponse ← resume parsed;
           reason ← JS.member errorResponse "error";
           mret (upload_failed
                   (JS.or reason
                      (JS.Str ("Upload failed with status " +:+ pretty status)))))
          (λ _, mret (upload_failed
                        (JS.Str ("Upload failed with status " +:+ pretty status))))
  | xhr_error => mret (upload_failed (JS.Str "Network error during upload"))
  end.

(** [uploadVideo].  [xhr.open], [xhr.setRequestHeader] and [xhr.send] run
    inside the executor of the promise that is returned: when one of them
    throws (a URL that cannot be parsed, a header value that is not allowed),
    that promise rejects and no request has gone out; the [catch] of the
    method does not see it, the promise being returned without [await].
    [xhr] is that completion: the exception, or the event the request that
    was sent ends with.  (The statements before the promise, which the
    [catch] does cover, build the form data and do not throw on the values of
    this model.) *)
Definition uploadVideo (this : RemoteVideoService)
    (config : option (gmap string JS.value)) (xhr : outcome XhrEvent)
  : eff Net UploadResult :=
  match xhr with
  | Throws reason => throw reason
  | Returns ev =>
      uploadVideo_send this config ;;
      uploadVideo_complete ev
  end.

(** ['remote-backend:get-job-status'] *)
Definition get_job_status_handler (constructed : outcome RemoteVideoService)
    (jobId : string) (settled : outcome Response) : eff Net Envelope :=
  try_catch
    (service ← resume constructed;
     status ← getJobStatus service jobId settled;
     mret (mkEnvelope true status None))
    (λ error,
       console_log ("Get job status error: " +:+ error) ;;
       mret (mkEnvelope false JS.Undefined (Some error))).

(** ['remote-backend:get-base-url'] *)
Definition get_base_url_handler (constructed : outcome RemoteVideoService)
  : eff Net Envelope :=
  try_catch
    (service ← resume constructed;
     mret (mkEnvelope true (JS.Str (getBaseUrl service)) None))
    (λ error,
       console_log ("Get base URL error: " +:+ error) ;;
       mret (mkEnvelope false JS.Undefined (Some error))).

(** *** Vocabulary for the properties *)

(** What a fetch settlement means to a caller that wants the JSON body. *)
Definition body_of (settled : outcome Response) : outcome JS.value :=
  match settled with
  | Returns response => if ok response then json response else Throws (statusText response)
  | Throws reason => Throws reason
  end.

(** A server that answers 503. *)
Definition unavailable : outcome Response :=
  Returns (mkResponse false "Service Unavailable" (Throws "Unexpected end of JSON input")).

Definition local_service : RemoteVideoService :=
  mkService "http://localhost:8000" None.

(** The keys the two object literals write after the spread. *)
Definition upload_keys : list string :=
  ["target_fps"; "detect_scenes"; "scene_threshold"; "min_duration"; "max_duration"].
Definition process_keys : list string :=
  upload_keys ++ ["generate_embeddings"].

(** A configuration whose threshold is zero and that asks for 30 frames per
    second. *)
Definition zero_threshold : gmap string JS.value :=
  {[ "scene_threshold" := JS.Num 0; "target_fps" := JS.Num 30 ]}.

End Remote.

(** ** The upload page ([VideoUpload]) *)

Module Upload.

Import Remote.

(** The state cells of the component the handlers below write, the
    intervals [setInterval] has running (by job), the network as the
    singleton [remoteVideoService] sees it, and the calls made to the
    parent's two callbacks.  ([uploadProgress] is written by the progress
    callback only and is left out.) *)
Record Page : Type := mkPage {
  selectedFile : option string;
  isUploading : bool;
  isProcessing : bool;
  uploadResult : option UploadResult;
  jobStatus : JS.value;
  config : gmap string JS.value;
  polling : list string;
  net : Net;
  uploads_reported : list UploadResult;
  jobs_reported : list JS.value
}.

Definition setIsUploading (b : bool) : eff Page unit :=
  modify (λ p, mkPage (selectedFile p) b (isProcessing p) (uploadResult p)
                      (jobStatus p) (config p) (polling p) (net p)
                      (uploads_reported p) (jobs_reported p)).
Definition setIsProcessing (b : bool) : eff Page unit :=
  modify (λ p, mkPage (selectedFile p) (isUploading p) b (uploadResult p)
                      (jobStatus p) (config p) (polling p) (net p)
                      (uploads_reported p) (jobs_reported p)).
Definition setUploadResult (r : option UploadResult) : eff Page unit :=
  modify (λ p, mkPage (selectedFile p) (isUploading p) (isProcessing p) r
                      (jobStatus p) (config p) (polling p) (net p)
                      (uploads_reported p) (jobs_reported p)).
Definition setJobStatus (v : JS.value) : eff Page unit :=
  modify (λ p, mkPage (selectedFile p) (isUploading p) (isProcessing p)
                      (uploadResult p) v (config p) (polling p) (net p)
                      (uploads_reported p) (jobs_reported p)).
Definition set_polling (f : list string → list string) : eff Page unit :=
  modify (λ p, mkPage (selectedFile p) (isUploading p) (isProcessing p)
                      (uploadResult p) (jobStatus p) (config p) (f (polling p))
                      (net p) (uploads_reported p) (jobs_reported p)).
Definition onUploadComplete (r : UploadResult) : eff Page unit :=
  modify (λ p, mkPage (selectedFile p) (isUploading p) (isProcessing p)
                      (uploadResult p) (jobStatus p) (config p) (polling p)
                      (net p) (uploads_reported p ++ [r]) (jobs_reported p)).
Definition onProcessComplete (v : JS.value) : eff Page unit :=
  modify (λ p, mkPage (selectedFile p) (isUploading p) (isProcessing p)
                      (uploadResult p) (jobStatus p) (config p) (polling p)
                      (net p) (uploads_reported p) (jobs_reported p ++ [v])).

(** A call into the service: it acts on the network part of the page. *)
Definition on_net {A} (m : eff Net A) : eff Page A :=
  λ p, ((m (net p)).1,
        mkPage (selectedFile p) (isUploading p) (isProcessing p) (uploadResult p)
               (jobStatus p) (config p) (polling p) (m (net p)).2
               (uploads_reported p) (jobs_reported p)).

Fixpoint without (jobId : string) (jobs : list string) : list string :=
  match jobs with
  | [] => []
  | j :: rest => if String.eqb j jobId then rest else j :: without jobId rest
  end.

(** [setInterval(..., 2000)] of [pollJobStatus], and its [clearInterval]. *)
Definition pollJobStatus (jobId : string) : eff Page unit :=
  set_polling (λ jobs, jobs ++ [jobId]).
Definition clearInterval (jobId : string) : eff Page unit :=
  set_polling (without jobId).

(** One firing of the interval of [pollJobStatus], lines 103-118, with the
    settlement of its [getJobStatus] request. *)
Definition poll_tick (service : RemoteVideoService) (jobId : string)
    (settled : outcome Response) : eff Page unit :=
  try_catch
    (status ← on_net (getJobStatus service jobId settled);
     setJobStatus status ;;
     state ← JS.member status "status";
     if JS.is_string state "completed" || JS.is_string state "failed" then
       clearInterval jobId ;;
       setIsProcessing false ;;
       onProcessComplete status
     else mret tt)
    (λ error,
       on_net (console_log ("Status poll error: " +:+ error)) ;;
       clearInterval jobId ;;
       setIsProcessing false).

(** The timer: the callback runs only while its interval is set. *)
Definition fire (service : RemoteVideoService) (jobId : string)
    (settled : outcome Response) : eff Page unit :=
  active ← gets (λ p, bool_decide (jobId ∈ polling p));
  if active : bool then poll_tick service jobId settled else mret tt.

(** Successive firings, each with its request settled before the next. *)
Fixpoint poll (service : RemoteVideoService) (jobId : string)
    (replies : list (outcome Response)) : eff Page unit :=
  match replies with
  | [] => mret tt
  | settled :: rest => fire service jobId settled ;; poll service jobId rest
  end.

(** [handleProcess], lines 88-100. *)
Definition handleProcess (service : RemoteVideoService) (jobId : string)
    (settled : outcome Response) : eff Page unit :=
  setIsProcessing true ;;
  try_catch
    (cfg ← gets config;
     result ← on_net (processVideo service jobId cfg settled);
     accepted ← JS.member result "success";
     if JS.truthy accepted then pollJobStatus jobId else mret tt)
    (λ error,
       on_net (console_log ("Process error: " +:+ error)) ;;
       setIsProcessing false).

(** [handleUpload], lines 54-86.  [render] is the engine's conversion of the
    job id into the text of the request's URL; [uploaded] is the completion
    of the upload request (see [uploadVideo]) and [processed] the settlement
    of the processing request. *)
Definition handleUpload (service : RemoteVideoService) (render : JS.value → string)
    (uploaded : outcome XhrEvent) (processed : outcome Response) : eff Page unit :=
  file ← gets selectedFile;
  match file with
  | None => mret tt
  | Some _ =>
      setIsUploading true ;;
      setUploadResult None ;;
      finally
        (try_catch
           (cfg ← gets config;
            result ← on_net (uploadVideo service (Some cfg) uploaded);
            setUploadResult (Some result) ;;
            onUploadComplete result ;;
            if up_success result && JS.truthy (job_id result)
            then handleProcess service (render (job_id result)) processed
            else mret tt)
           (λ error,
              on_net (console_log ("Upload error: " +:+ error)) ;;
              setUploadResult (Some (upload_failed (JS.Str error)))))
        (setIsUploading false)
  end.

(** *** Vocabulary for the properties *)

(** The page as it is first rendered, with a file chosen. *)
Definition first_render (file : option string) : Page :=
  mkPage file false false None JS.Null
         {[ "detect_scenes" := JS.Bool true; "scene_threshold" := JS.Num 0.2;
            "min_duration" := JS.Num 5.0; "max_duration" := JS.Num 12.0;
            "target_fps" := JS.Num 1; "generate_embeddings" := JS.Bool true ]}
         [] offline [] [].

(** Whether a job-status settlement ends the polling: the request failed in
    one of its ways, the body is [null], or its [status] is one of the two
    final ones. *)
Definition stops (settled : outcome Response) : bool :=
  match body_of settled with
  | Throws _ => true
  | Returns v =>
      JS.nullish v
      || JS.is_string (JS.opt_member v "status") "completed"
      || JS.is_string (JS.opt_member v "status") "failed"
  end.

(** The firings that happen: up to the first that stops, included. *)
Fixpoint until_stop (replies : list (outcome Response)) : list (outcome Response) :=
  match replies with
  | [] => []
  | settled :: rest =>
      if stops settled then [settled] else settled :: until_stop rest
  end.

Definition answer (v : JS.value) : outcome Response :=
  Returns (mkResponse true "OK" (Returns v)).

Definition job_state (state : string) : JS.value :=
  JS.Obj {[ "status" := JS.Str state ]}.

End Upload.

(** ** The backend settings card ([BackendConfig]) *)

Module Backend.

Import Remote.

(** [{ url, apiKey? }] *)
Record BackendConfig : Type := mkConfig {
  cfg_url : string;
  cfg_apiKey : option string
}.

Record TestResult : Type := mkTest {
  test_success : bool;
  test_message : string
}.

Record Card : Type := mkCard {
  settings : BackendConfig;
  isTesting : bool;
  testResult : option TestResult;
  net : Net
}.

(** The response of the health request: [testConnection] also reads its
    numeric status. *)
Record Reply : Type := mkReply {
  status : Z;
  response : Response
}.

Definition setIsTesting (b : bool) : eff Card unit :=
  modify (λ c, mkCard (settings c) b (testResult c) (net c)).
Definition setTestResult (r : option TestResult) : eff Card unit :=
  modify (λ c, mkCard (settings c) (isTesting c) r (net c)).
Definition on_net {A} (m : eff Net A) : eff Card A :=
  λ c, ((m (net c)).1, mkCard (settings c) (isTesting c) (testResult c) (m (net c)).2).

(** [testConnection], lines 34-66; [render] is the engine's conversion of a
    value into the text of a template literal. *)
Definition testConnection (render : JS.value → string)
    (settled : outcome Reply) : eff Card unit :=
  setIsTesting true ;;
  setTestResult None ;;
  finally
    (try_catch
       (url ← gets (λ c, cfg_url (settings c));
        on_net (send (mkRequest "GET" (url +:+ "/api/health") None None)) ;;
        reply ← resume settled;
        if ok (response reply) then
          data ← resume (json (response reply));
          version ← JS.member data "version";
          setTestResult
            (Some (mkTest true
                     ("Connected successfully! Backend version: "
                      +:+ render (JS.or version (JS.Str "Unknown")))))
        else
          setTestResult
            (Some (mkTest false
                     ("Connection failed: " +:+ pretty (status reply) +:+ " "
                      +:+ statusText (response reply)))))
       (λ error,
          setTestResult (Some (mkTest false ("Connection failed: " +:+ error)))))
    (setIsTesting false).

End Backend.

(** ** Model files: [check-model-files] and [download-internvideo2] *)

Module Models.

(** *** A file system

    Directories are finite maps from names to nodes; a regular file carries
    the number of bytes written to it.  A path is the list of its segments,
    so [path.join] is concatenation. *)

Inductive node : Type :=
| File (size : N)
| Dir (entries : gmap string node).

Definition path : Type := list string.

Definition join (p : path) (segments : list string) : path := p ++ segments.

Fixpoint stat (n : node) (p : path) : option node :=
  match p with
  | [] => Some n
  | name :: rest =>
      match n with
      | Dir entries =>
          match entries !! name with
          | Some child => stat child rest
          | None => None
          end
      | File _ => None
      end
  end.

(** [mkdir -p]: creates what is missing; [None] when a segment of the path
    is a regular file. *)
Fixpoint mkdirp (n : node) (p : path) : option node :=
  match n with
  | File _ => None
  | Dir entries =>
      match p with
      | [] => Some n
      | name :: rest =>
          match mkdirp (default (Dir ∅) (entries !! name)) rest with
          | Some child => Some (Dir (<[name := child]> entries))
          | None => None
          end
      end
  end.

(** Opening for writing (flag [w]): creates the file or truncates it;
    [None] when the parent is not a directory or the path is one. *)
Fixpoint open_w (n : node) (p : path) : option node :=
  match p with
  | [] => match n with File _ => Some (File 0) | Dir _ => None end
  | name :: rest =>
      match n with
      | File _ => None
      | Dir entries =>
          match entries !! name with
          | Some child =>
              match open_w child rest with
              | Some child' => Some (Dir (<[name := child']> entries))
              | None => None
              end
          | None =>
              match rest with
              | [] => Some (Dir (<[name := File 0]> entries))
              | _ :: _ => None
              end
          end
      end
  end.

(** Bytes appended to an open file. *)
Fixpoint append (n : node) (p : path) (bytes : N) : node :=
  match p with
  | [] => match n with File size => File (size + bytes) | Dir _ => n end
  | name :: rest =>
      match n with
      | File _ => n
      | Dir entries =>
          match entries !! name with
          | Some child => Dir (<[name := append child rest bytes]> entries)
          | None => n
          end
      end
  end.

(** Recursive removal of a tree; nothing to do when the path is absent
    ([force]). *)
Fixpoint rm (n : node) (p : path) : node :=
  match p with
  | [] => n
  | name :: rest =>
      match n with
      | File _ => n
      | Dir entries =>
          match rest with
          | [] => Dir (delete name entries)
          | _ :: _ =>
              match entries !! name with
              | Some child => Dir (<[name := rm child rest]> entries)
              | None => n
              end
          end
      end
  end.

(** *** The main process as the handlers see it *)

(** The disk, the requests sent (by URL), the inactivity timeouts armed on
    them (in milliseconds), and the console. *)
Record World : Type := mkWorld {
  fs : node;
  requests : list string;
  timers : list Z;
  console : list string
}.

Definition set_fs (f : node → node) (w : World) : World :=
  mkWorld (f (fs w)) (requests w) (timers w) (console w).

Definition console_error (line : string) : eff World unit :=
  modify (λ w, mkWorld (fs w) (requests w) (timers w) (console w ++ [line])).

Definition https_get (url : string) : eff World unit :=
  modify (λ w, mkWorld (fs w) (requests w ++ [url]) (timers w) (console w)).

(** [request.setTimeout(ms, ...)] *)
Definition request_setTimeout (ms : Z) : eff World unit :=
  modify (λ w, mkWorld (fs w) (requests w) (timers w ++ [ms]) (console w)).

Definition existsSync (p : path) : eff World bool :=
  gets (λ w, bool_decide (is_Some (stat (fs w) p))).

(** [fs/promises.access]: rejects when the path cannot be reached. *)
Definition access (p : path) : eff World unit :=
  λ w, match stat (fs w) p with
       | Some _ => (Returns tt, w)
       | None => (Throws "ENOENT: no such file or directory, access", w)
       end.

Definition mkdirSync (p : path) : eff World unit :=
  λ w, match mkdirp (fs w) p with
       | Some fs' => (Returns tt, set_fs (λ _, fs') w)
       | None => (Throws "ENOTDIR: not a directory, mkdir", w)
       end.

(** [createWriteStream]: the stream is returned at once; whether the file
    could be opened ([true]) shows later, as an [error] event if not. *)
Definition createWriteStream (p : path) : eff World bool :=
  λ w, match open_w (fs w) p with
       | Some fs' => (Returns true, set_fs (λ _, fs') w)
       | None => (Returns false, w)
       end.

Definition pipe (p : path) (chunks : list N) : eff World unit :=
  modify (set_fs (λ n, foldl (λ n' bytes, append n' p bytes) n chunks)).

(** [rmSync(p, { recursive: true, force: true })].  Removal is an operation
    of the host: [refusal] is the error it raises, if it does (a busy or
    protected entry), and [removed] the entries below [p] it had deleted by
    then. *)
Definition rmSync (p : path) (refusal : option string) (removed : list path)
  : eff World unit :=
  match refusal with
  | Some msg =>
      modify (set_fs (λ n, foldl (λ n' q, rm n' (p ++ q)) n removed)) ;;
      throw msg
  | None => modify (set_fs (λ n, rm n p))
  end.

(** *** ['check-model-files'] *)

Definition model_file : string := "InternVideo2_1B_S2.pth".

Record ModelFiles : Type := mkModelFiles { internvideo2 : bool }.

(** [storeDirectory] is [None] when the IPC argument is not a string, which
    [path.join] rejects with a TypeError. *)
Definition join_arg (storeDirectory : option path) (segments : list string)
  : eff World path :=
  match storeDirectory with
  | Some dir => mret (join dir segments)
  | None => throw "The path argument must be of type string"
  end.

Definition check_model_files (storeDirectory : option path) : eff World ModelFiles :=
  try_catch
    (internvideo2Path ← join_arg storeDirectory ["checkpoints"; model_file];
     internvideo2 ← try_catch (access internvideo2Path ;; mret true)
                              (λ _, mret false);
     mret (mkModelFiles internvideo2))
    (λ _, mret (mkModelFiles false)).

(** *** ['download-internvideo2'] *)

Definition model_url : string :=
  "https://huggingface.co/OpenGVLab/InternVideo2_1B_Sty/resolve/main/InternVideo2_1B_S2.pth".

(** [request.setTimeout(300000, ...)]: milliseconds of socket inactivity. *)
Definition timeout_ms : Z := 300000.

(** What the handler's promise resolves with. *)
Record DownloadResult : Type := mkResult {
  success : bool;
  message : option string;
  error : option string
}.

(** How the handler's run ends: its promise resolves, or none of the
    events that would resolve it ever comes and the promise stays pending. *)
Inductive completion : Type :=
| Resolved (r : DownloadResult)
| Unsettled.

(** What the network and the disk do during one transfer, in the terms of
    the events the handler listens to.  The timeout callback destroys the
    request; [hang_up] is the error event the destroyed request then raises
    on itself, if it does (Node raises "socket hang up" when no response has
    been received yet). *)
Inductive interruption : Type :=
| request_error (msg : string)                (* request.on('error') *)
| idle_timeout (hang_up : option string).     (* request.setTimeout callback *)

(** How a response with status 200 ends: the write stream finishes, it
    raises an error while the body is written, the request is interrupted,
    or the connection closes before the body is complete, which raises none
    of the events the handler listens to. *)
Inductive ending : Type :=
| finish                            (* file.on('finish') *)
| file_error (msg : string)         (* file.on('error') *)
| interrupted (i : interruption)
| cut_short.

Inductive exchange : Type :=
| Responded (statusCode : Z) (statusMessage : string)
            (chunks : list N) (last : ending)
| Unanswered (i : interruption).

Record Environment : Type := mkEnv {
  network : exchange;
  rm_refusal : option string;
  rm_removed : list path
}.

(** The clean-up every failure path runs:
    [try { rmSync(checkpointsDir, ...) } catch (cleanupError) { console.error(...) }]. *)
Definition cleanup (checkpointsDir : path) (env : Environment) : eff World unit :=
  try_catch
    (rmSync checkpointsDir (rm_refusal env) (rm_removed env))
    (λ cleanupError,
       console_error ("Failed to cleanup checkpoints directory: " +:+ cleanupError)).

Definition failure (msg : string) : completion :=
  Resolved (mkResult false None (Some msg)).

(** The listeners of lines 159-168 and 170-180.  The promise keeps the
    first result it is resolved with: when the request destroyed by the
    timeout callback raises its error event, the listener of line 159 runs
    its clean-up as well, and its [resolve] changes nothing. *)
Definition on_interruption (checkpointsDir : path) (env : Environment)
    (i : interruption) : eff World completion :=
  match i with
  | request_error msg =>
      cleanup checkpointsDir env ;;
      mret (failure msg)
  | idle_timeout hang_up =>
      (* request.destroy() *)
      cleanup checkpointsDir env ;;
      match hang_up with
      | Some _ => cleanup checkpointsDir env
      | None => mret tt
      end ;;
      mret (failure "Download timeout")
  end.

(** The body of [new Promise((resolve) => { ... })], lines 106-181, and the
    events that follow.  When the write stream cannot be opened ([opened] is
    false) its [error] event fires before the response arrives, when no
    listener is attached to the stream yet: no code of the handler runs on
    it, nothing is written, and the stream neither finishes nor raises the
    event again; the listeners of the request run as in any other run.  The
    progress notifications sent to the renderer are left out: they act on
    neither the disk, the request nor the result. *)
Definition transfer (checkpointsDir internvideo2Path : path)
    (env : Environment) : eff World completion :=
  opened ← createWriteStream internvideo2Path;
  https_get model_url ;;
  request_setTimeout timeout_ms ;;
  match network env with
  | Responded statusCode statusMessage chunks last =>
      if negb (statusCode =? 200)%Z then
        cleanup checkpointsDir env ;;
        mret (failure ("HTTP " +:+ pretty statusCode +:+ ": " +:+ statusMessage))
      else
        (if opened : bool then pipe internvideo2Path chunks else mret tt) ;;
        match last with
        | finish =>
            if opened : bool then
              (* file.close() *)
              mret (Resolved (mkResult true (Some "InternVideo2 download completed") None))
            else mret Unsettled
        | file_error msg =>
            if opened : bool then
              (* file.close() *)
              cleanup checkpointsDir env ;;
              mret (failure msg)
            else mret Unsettled
        | interrupted i => on_interruption checkpointsDir env i
        | cut_short => mret Unsettled
        end
  | Unanswered i => on_interruption checkpointsDir env i
  end.

Definition download_internvideo2 (storeDirectory : option path)
    (env : Environment) : eff World completion :=
  try_catch
    ((* Create directory if it doesn't exist *)
     present ← match storeDirectory with
               | Some dir => existsSync dir
               | None => mret false
               end;
     (if negb present
      then dir ← join_arg storeDirectory []; mkdirSync dir
      else mret tt) ;;
     (* Create checkpoints directory *)
     checkpointsDir ← join_arg storeDirectory ["checkpoints"];
     present ← existsSync checkpointsDir;
     (if negb present then mkdirSync checkpointsDir else mret tt) ;;
     let internvideo2Path := join checkpointsDir [model_file] in
     (* Check if file already exists *)
     found ← try_catch (access internvideo2Path ;; mret true) (λ _, mret false);
     if found : bool
     then mret (Resolved (mkResult true (Some "InternVideo2 model already exists") None))
     else transfer checkpointsDir internvideo2Path env)
    (λ error, mret (failure error)).

(** *** Vocabulary for the properties *)

Definition already_there : completion :=
  Resolved (mkResult true (Some "InternVideo2 model already exists") None).

(** Whether a regular file sits where the checkpoints directory should be.
    On this file system it is the one case in which the handler gets past
    the directories and cannot open its write stream. *)
Definition blocked (w : World) (dir : path) : bool :=
  match stat (fs w) (dir ++ ["checkpoints"]) with
  | Some (File _) => true
  | _ => false
  end.



(** Sample worlds and environments. *)
Definition empty_disk : World := mkWorld (Dir ∅) [] [] [].

Definition served : Environment :=
  mkEnv (Responded 200 "OK" [4096%N; 4096%N; 1024%N] finish) None [].

Definition not_found : Environment :=
  mkEnv (Responded 404 "Not Found" [] finish) None [].


(** Bytes delivered by a response. *)
Definition total (chunks : list N) : N := foldr N.add 0%N chunks.

(** Two paths neither of which leads to the other. *)
Definition apart (p q : path) : Prop :=
  ¬ p `prefix_of` q ∧ ¬ q `prefix_of` p.

(** A disk with other things on it: a sibling model in the checkpoints
    directory, a file beside it, and an unrelated directory. *)
Definition used_disk : World :=
  mkWorld
    (Dir {[ "models" :=
              Dir {[ "checkpoints" := Dir {[ "other.pth" := File 7 ]};
                     "notes.txt" := File 12 ]};
            "home" := Dir {[ "video.mp4" := File 1000 ]} ]})
    [] [] [].

Definition reset_midway : Environment :=
  mkEnv (Responded 200 "OK" [4096%N] (interrupted (request_error "ECONNRESET"))) None [].

(** A disk on which [checkpoints] is a regular file. *)
Definition blocked_disk : World :=
  mkWorld (Dir {[ "models" := Dir {[ "checkpoints" := File 5 ]} ]}) [] [] [].

(** The connection closes after the first chunk of a 200 response. *)
Definition closed_midway : Environment :=
  mkEnv (Responded 200 "OK" [4096%N] cut_short) None [].

(** Nothing answers; the timeout fires, the destroyed request hangs up, and
    the host refuses the removal after it deleted the partial file. *)
Definition timed_out_busy : Environment :=
  mkEnv (Unanswered (idle_timeout (Some "socket hang up")))
        (Some "EBUSY: resource busy or locked, rmdir") [["InternVideo2_1B_S2.pth"]].

End Models.

(** ** The initialization wizard, as far as it deals with the model *)

Module Wizard.

Import Models.

(** ['pending' | 'downloading' | 'completed' | 'error'] *)
Inductive Status : Type :=
| pending
| downloading
| completed
| error.

(** The state cells the three functions below read and write; the store
    directory is [None] while it is the empty string. *)
Record Cells : Type := mkCells {
  storeDirectory : option path;
  internvideo2Status : Status;
  downloadProgress : N;
  isRefreshing : bool;
  alerts : list string
}.

(** The renderer's cells and the main process behind [window.api]. *)
Record App : Type := mkApp {
  ui : Cells;
  main : World
}.

Definition on_ui (f : Cells → Cells) : eff App unit :=
  modify (λ a, mkApp (f (ui a)) (main a)).

Definition setInternvideo2Status (st : Status) : eff App unit :=
  on_ui (λ c, mkCells (storeDirectory c) st (downloadProgress c) (isRefreshing c) (alerts c)).
Definition setDownloadProgress (n : N) : eff App unit :=
  on_ui (λ c, mkCells (storeDirectory c) (internvideo2Status c) n (isRefreshing c) (alerts c)).
Definition setIsRefreshing (b : bool) : eff App unit :=
  on_ui (λ c, mkCells (storeDirectory c) (internvideo2Status c) (downloadProgress c) b (alerts c)).
Definition alert (text : string) : eff App unit :=
  on_ui (λ c, mkCells (storeDirectory c) (internvideo2Status c) (downloadProgress c)
                (isRefreshing c) (alerts c ++ [text])).

(** [await window.api.<handler>(...)]: the handler runs in the main
    process; its completion is what the promise settles with. *)
Definition invoke_main {A} (handler : eff World A) : eff App A :=
  λ a, ((handler (main a)).1, mkApp (ui a) (handler (main a)).2).

(** [checkModelFiles], lines 283-303. *)
Definition checkModelFiles (directory : option path) : eff App ModelFiles :=
  stored ← gets (λ a, storeDirectory (ui a));
  match (match directory with Some d => Some d | None => stored end) with
  | None => mret (mkModelFiles false)
  | Some targetDirectory =>
      try_catch
        (result ← invoke_main (check_model_files (Some targetDirectory));
         setInternvideo2Status (if internvideo2 result then completed else pending) ;;
         (if internvideo2 result then setDownloadProgress 100 else mret tt) ;;
         mret result)
        (λ _, mret (mkModelFiles false))
  end.

(** [downloadInternVideo2], lines 320-343.  When the handler's promise
    never settles, nothing follows the first two updates.  (The progress
    events that arrive meanwhile write [downloadProgress] only and are left
    out.) *)
Definition downloadInternVideo2 (env : Environment) : eff App unit :=
  stored ← gets (λ a, storeDirectory (ui a));
  match stored with
  | None => mret tt
  | Some dir =>
      setInternvideo2Status downloading ;;
      setDownloadProgress 0 ;;
      try_catch
        (settled ← invoke_main (download_internvideo2 (Some dir) env);
         match settled with
         | Resolved result =>
             if success result then
               setInternvideo2Status completed ;;
               setDownloadProgress 100
             else
               setInternvideo2Status error ;;
               alert ("InternVideo2 download failed: "
                      +:+ default "undefined" (Models.error result))
         | Unsettled => mret tt
         end)
        (λ reason,
           setInternvideo2Status error ;;
           alert ("InternVideo2 download error: " +:+ reason))
  end.

(** [refreshModelsStatus], lines 356-378; the values of [storeDirectory]
    and [isRefreshing] it tests are those of the latest render. *)
Definition refreshModelsStatus : eff App unit :=
  cells ← gets ui;
  match storeDirectory cells with
  | None => mret tt
  | Some dir =>
      if isRefreshing cells then mret tt else
      setIsRefreshing true ;;
      finally
        (try_catch
           (result ← invoke_main (check_model_files (Some dir));
            setInternvideo2Status (if internvideo2 result then completed else pending) ;;
            if internvideo2 result
            then setDownloadProgress 100
            else setDownloadProgress 0)
           (λ _, mret tt))
        (setIsRefreshing false)
  end.

(** *** Vocabulary for the properties *)

Definition configured (dir : path) (w : World) : App :=
  mkApp (mkCells (Some dir) pending 0 false []) w.

End Wizard.

(* ===================================================================== *)
(** * Part II: properties *)
(* ===================================================================== *)

(** ** Unfolding the monad *)

Ltac eff_unfold :=
  cbv [mbind mret eff_bind eff_ret Eff.bind Eff.ret Eff.throw Eff.resume
       Eff.modify Eff.gets Eff.try_catch Eff.finally].

(** ** The hook *)

Section HookFacts.

Import Hook.

Ltac hook_unfold :=
  cbv [step settle begin call
       checkServiceStatus_begin checkServiceStatus_resume
       startService_begin startService_resume
       stopService_begin stopService_resume
       loadInternVideo2_begin loadInternVideo2_resume
       releaseInternVideo2_begin releaseInternVideo2_resume
       checkInternVideo2Status_begin checkInternVideo2Status_resume
       setServiceState setLoading invoke console_error JS.member];
  eff_unfold.

(** A few runs, to see the model at work. *)

Example start_then_load :
  ∃ s, run fresh [Call startService; Settle startService succeeded;
                  Call loadInternVideo2; Settle loadInternVideo2 succeeded] = Some s
       ∧ serviceState (hook s)
         = mkServiceState true true (Some "InternVideo2 model loaded successfully") None
       ∧ loading (hook s) = mkLoading false false false false false
       ∧ results s = [(startService, Returns (Some true));
                      (loadInternVideo2, Returns (Some true))].
Proof. eexists. repeat split; reflexivity. Qed.

Example settle_without_call :
  run fresh [Settle startService succeeded] = None.
Proof. reflexivity. Qed.

Example rejected_start :
  call startService (Throws "IPC channel closed") initial
  = (Returns (Some false),
     mkState (mkServiceState false false None (Some "Failed to start service"))
             (mkLoading false false false false false)
             [startServiceApi] []).
Proof. reflexivity. Qed.

Ltac split_ifs :=
  repeat match goal with
         | |- context [if ?b then _ else _] => destruct b eqn:?
         end.

Lemma truthy_or_false (v : JS.value) :
  JS.truthy (JS.or v (JS.Bool false)) = JS.truthy v.
Proof. unfold JS.or. by destruct (JS.truthy v) eqn:E. Qed.

(** What each continuation does, in closed form. *)

Lemma checkServiceStatus_resume_eq (settled : outcome IpcResult) (st : State) :
  checkServiceStatus_resume settled st =
  (Returns tt,
   mkState
     (match settled with
      | Returns result =>
          if success result && JS.truthy (data result) then
            mkServiceState
              (snapshot_running (data result))
              (snapshot_loaded (data result))
              (Some (if snapshot_loaded (data result)
                     then "Service ready for video processing"
                     else "Service running - InternVideo2 not loaded"))
              (error (serviceState st))
          else
            mkServiceState false false (message (serviceState st))
              (Some (JS.str_or (ipc_error result) "Failed to get system status"))
      | Throws _ =>
          mkServiceState false false (message (serviceState st))
            (Some "Failed to check service status")
      end)
     (with_checkingService false (loading st)) (invoked st) (console st)).
Proof.
  destruct settled as [[ok d m e] | msg]; [|reflexivity].
  destruct ok; [|reflexivity].
  destruct d; try reflexivity.
  - hook_unfold; cbn. by destruct b.
  - hook_unfold; cbn. by split_ifs.
  - hook_unfold; cbn. by split_ifs.
  - hook_unfold; cbn. unfold snapshot_running, snapshot_loaded; cbn.
    by rewrite truthy_or_false.
Qed.

Lemma startService_resume_eq (settled : outcome IpcResult) (st : State) :
  startService_resume settled st =
  match settled with
  | Returns result =>
      if success result then
        (Returns true,
         mkState (with_message (ipc_message result)
                    (with_isRunning true (serviceState st)))
                 (with_starting false (loading st)) (invoked st) (console st))
      else
        (Returns false,
         mkState (with_error (ipc_error result)
                    (with_isRunning false (serviceState st)))
                 (with_starting false (loading st)) (invoked st) (console st))
  | Throws _ =>
      (Returns false,
       mkState (with_error (Some "Failed to start service")
                  (with_isRunning false (serviceState st)))
               (with_starting false (loading st)) (invoked st) (console st))
  end.
Proof. by destruct settled as [[[] d m e] | msg]. Qed.

Lemma stopService_resume_eq (settled : outcome IpcResult) (st : State) :
  stopService_resume settled st =
  match settled with
  | Returns result =>
      if success result then
        (Returns true,
         mkState (with_message (ipc_message result)
                    (with_isRunning false (serviceState st)))
                 (with_stopping false (loading st)) (invoked st) (console st))
      else
        (Returns false,
         mkState (with_error (ipc_error result)
                    (with_isRunning false (serviceState st)))
                 (with_stopping false (loading st)) (invoked st) (console st))
  | Throws _ =>
      (Returns false,
       mkState (with_error (Some "Failed to stop service")
                  (with_isRunning false (serviceState st)))
               (with_stopping false (loading st)) (invoked st) (console st))
  end.
Proof. by destruct settled as [[[] d m e] | msg]. Qed.

Lemma loadInternVideo2_resume_eq (settled : outcome IpcResult) (st : State) :
  loadInternVideo2_resume settled st =
  match settled with
  | Returns result =>
      if success result then
        (Returns true,
         mkState (with_message (Some "InternVideo2 model loaded successfully")
                    (with_internvideo2Loaded true (serviceState st)))
                 (with_loadingInternVideo2 false (loading st))
                 (invoked st) (console st))
      else
        (Returns false,
         mkState (with_error (ipc_error result) (serviceState st))
                 (with_loadingInternVideo2 false (loading st))
                 (invoked st) (console st))
  | Throws _ =>
      (Returns false,
       mkState (with_error (Some "Failed to load InternVideo2 model")
                  (serviceState st))
               (with_loadingInternVideo2 false (loading st))
               (invoked st) (console st))
  end.
Proof. by destruct settled as [[[] d m e] | msg]. Qed.

Lemma releaseInternVideo2_resume_eq (settled : outcome IpcResult) (st : State) :
  releaseInternVideo2_resume settled st =
  match settled with
  | Returns result =>
      if success result then
        (Returns true,
         mkState (with_message (Some "InternVideo2 model released successfully")
                    (with_internvideo2Loaded false (serviceState st)))
                 (with_releasingInternVideo2 false (loading st))
                 (invoked st) (console st))
      else
        (Returns false,
         mkState (with_error (ipc_error result) (serviceState st))
                 (with_releasingInternVideo2 false (loading st))
                 (invoked st) (console st))
  | Throws _ =>
      (Returns false,
       mkState (with_error (Some "Failed to release InternVideo2 model")
                  (serviceState st))
               (with_releasingInternVideo2 false (loading st))
               (invoked st) (console st))
  end.
Proof. by destruct settled as [[[] d m e] | msg]. Qed.

Lemma checkInternVideo2Status_resume_eq (settled : outcome IpcResult) (st : State) :
  checkInternVideo2Status_resume settled st =
  match settled with
  | Returns result =>
      (Returns tt,
       if success result then
         mkState (with_internvideo2Loaded
                    (JS.truthy (JS.or (JS.opt_member (data result) "loaded")
                                      (JS.Bool false)))
                    (serviceState st))
                 (loading st) (invoked st) (console st)
       else st)
  | Throws msg =>
      (Returns tt,
       mkState (serviceState st) (loading st) (invoked st)
               (console st ++ ["Failed to check InternVideo2 status: " +:+ msg]))
  end.
Proof. by destruct settled as [[[] d m e] | msg]. Qed.

(** The state a settlement leaves. *)
Lemma settle_state (op : Op) (settled : outcome IpcResult) (st : State) :
  (settle op settled st).2 =
  match op with
  | checkServiceStatus => (checkServiceStatus_resume settled st).2
  | startService => (startService_resume settled st).2
  | stopService => (stopService_resume settled st).2
  | loadInternVideo2 => (loadInternVideo2_resume settled st).2
  | releaseInternVideo2 => (releaseInternVideo2_resume settled st).2
  | checkInternVideo2Status => (checkInternVideo2Status_resume settled st).2
  end.
Proof.
  destruct op; cbv [settle]; eff_unfold;
    match goal with |- context [?f settled st] => by destruct (f settled st) as [[] ?] end.
Qed.

Lemma begin_serviceState (op : Op) (st : State) :
  serviceState (begin op st).2 = serviceState st.
Proof. by destruct op. Qed.

Lemma coherent_preserved (s s' : Session) (e : event) :
  coherent (hook s) = true →
  disciplined (hook s) e = true →
  step s e = Some s' →
  coherent (hook s') = true.
Proof.
  destruct e as [op | op settled]; cbn [step].
  - intros Hc _ [= <-]. cbn [hook]. unfold coherent in *.
    by rewrite begin_serviceState.
  - case_decide; [|done]. intros Hc Hd [= <-]. cbn [hook].
    rewrite settle_state. revert Hc Hd.
    destruct s as [[[running loaded msg err] flags log out] waiting done'].
    cbn [hook]. unfold coherent, disciplined. cbn [serviceState isRunning internvideo2Loaded].
    destruct op;
      rewrite ?checkServiceStatus_resume_eq, ?startService_resume_eq,
        ?stopService_resume_eq, ?loadInternVideo2_resume_eq,
        ?releaseInternVideo2_resume_eq, ?checkInternVideo2Status_resume_eq;
      destruct settled as [[ok d m er] | failure]; cbn;
      try (destruct ok); cbn; split_ifs; cbn;
      destruct running, loaded; cbn; done.
Qed.

Lemma coherent_run (trace : list event) (s s' : Session) :
  coherent (hook s) = true →
  disciplined_run s trace = true →
  run s trace = Some s' →
  coherent (hook s') = true.
Proof.
  revert s. induction trace as [|e rest IH]; intros s Hc Hd Hrun.
  - by injection Hrun as <-.
  - cbn in Hd, Hrun. apply andb_prop in Hd as [He Hrest].
    destruct (step s e) as [s1|] eqn:Hstep; [|done].
    apply (IH s1); [|done..].
    by apply (coherent_preserved s s1 e).
Qed.

(** The discipline is not stronger than needed: a settlement outside it
    breaks coherence. *)
Lemma discipline_is_needed (s s' : Session) (e : event) :
  coherent (hook s) = true →
  disciplined (hook s) e = false →
  step s e = Some s' →
  coherent (hook s') = false.
Proof.
  destruct e as [op | op settled]; cbn [step]; [done|].
  case_decide; [|done]. intros Hc Hd [= <-]. cbn [hook].
  rewrite settle_state. revert Hc Hd.
  destruct s as [[[running loaded msg err] flags log out] waiting done'].
  cbn [hook]. unfold coherent, disciplined.
  cbn [serviceState isRunning internvideo2Loaded].
  destruct op;
    rewrite ?checkServiceStatus_resume_eq, ?startService_resume_eq,
      ?stopService_resume_eq, ?loadInternVideo2_resume_eq,
      ?releaseInternVideo2_resume_eq, ?checkInternVideo2Status_resume_eq;
    destruct settled as [[ok d m er] | failure]; cbn;
    try (destruct ok); cbn; split_ifs; cbn;
    destruct running, loaded; cbn; done.
Qed.

(** C1, as stated, fails.  From the initial state a [loadInternVideo2] that
    the backend answers with success leaves [internvideo2Loaded] true while
    [isRunning] is false; and after start and load, a [stopService] that
    succeeds (it resolves with [true]) leaves [internvideo2Loaded] true. *)
Lemma loaded_while_not_running :
  (∃ s, run fresh [Call loadInternVideo2; Settle loadInternVideo2 succeeded] = Some s
        ∧ isRunning (serviceState (hook s)) = false
        ∧ internvideo2Loaded (serviceState (hook s)) = true)
  ∧ (∃ s, run fresh [Call startService; Settle startService succeeded;
                     Call loadInternVideo2; Settle loadInternVideo2 succeeded;
                     Call stopService; Settle stopService succeeded] = Some s
          ∧ last (results s) = Some (stopService, Returns (Some true))
          ∧ isRunning (serviceState (hook s)) = false
          ∧ internvideo2Loaded (serviceState (hook s)) = true).
Proof. split; eexists; repeat split; reflexivity. Qed.

(** C1 (amended).  Both flags start false, and along every interleaving of
    the six operations that follows the discipline [disciplined] (a model is
    reported loaded only while the service is believed running, a status
    snapshot with the model loaded also shows the service running, the
    service is declared down only while no model is believed loaded),
    [internvideo2Loaded] implies [isRunning]. *)
Theorem coherent_under_discipline (trace : list event) (s : Session) :
  disciplined_run fresh trace = true →
  run fresh trace = Some s →
  coherent initial = true ∧ coherent (hook s) = true.
Proof.
  intros Hd Hrun. split; [reflexivity|].
  by apply (coherent_run trace fresh s).
Qed.

Lemma coherent_under_discipline_witness :
  ∃ s, run fresh orderly_trace = Some s
       ∧ isRunning (serviceState (hook s)) = false
       ∧ coherent initial = true ∧ coherent (hook s) = true.
Proof.
  eexists. split; [vm_compute; reflexivity|].
  split; [reflexivity|].
  apply (coherent_under_discipline orderly_trace); vm_compute; reflexivity.
Defined.

(** C2, as stated, fails.  In the initial state the service is stopped;
    [loadInternVideo2] reaches the backend's load endpoint all the same and,
    the backend answering with success, resolves with [true]. *)
Lemma load_while_stopped_reaches_backend :
  isRunning (serviceState initial) = false
  ∧ invoked (begin loadInternVideo2 initial).2 = [loadInternVideo2Api]
  ∧ (call loadInternVideo2 succeeded initial).1 = Returns (Some true)
  ∧ invoked (call loadInternVideo2 succeeded initial).2 = [loadInternVideo2Api].
Proof. repeat split; reflexivity. Qed.

(** C2 (amended).  [loadInternVideo2] looks at no state: whatever
    [isRunning] is, it invokes the backend's load endpoint once, and it
    resolves with [true] exactly when the backend answers with success, with
    [false] when the answer is a failure or the call is rejected (the reason
    then goes to [serviceState.error]); [isRunning] is left as it was. *)
Theorem loadInternVideo2_ungated (settled : outcome IpcResult) (st : State) :
  invoked (begin loadInternVideo2 st).2 = invoked st ++ [loadInternVideo2Api]
  ∧ invoked (call loadInternVideo2 settled st).2 = invoked st ++ [loadInternVideo2Api]
  ∧ (call loadInternVideo2 settled st).1 =
      Returns (Some match settled with
                    | Returns result => success result
                    | Throws _ => false
                    end)
  ∧ isRunning (serviceState (call loadInternVideo2 settled st).2)
    = isRunning (serviceState st)
  ∧ internvideo2Loaded (serviceState (call loadInternVideo2 settled st).2)
    = match settled with
      | Returns result => success result || internvideo2Loaded (serviceState st)
      | Throws _ => internvideo2Loaded (serviceState st)
      end
  ∧ error (serviceState (call loadInternVideo2 settled st).2)
    = match settled with
      | Returns result =>
          if success result then error (serviceState st) else ipc_error result
      | Throws _ => Some "Failed to load InternVideo2 model"
      end.
Proof.
  destruct settled as [[[] d m e] | msg]; repeat split; reflexivity.
Qed.

Lemma begin_invoked (op : Op) (st : State) :
  invoked (begin op st).2 = invoked st ++ [endpoint op].
Proof. by destruct op. Qed.

Lemma run_invoked (trace : list event) (s s' : Session) :
  run s trace = Some s' →
  invoked (hook s') = invoked (hook s) ++ (endpoint <$> calls trace).
Proof.
  revert s. induction trace as [|e rest IH]; intros s Hrun.
  - injection Hrun as <-. by rewrite app_nil_r.
  - cbn in Hrun. destruct (step s e) as [s1|] eqn:Hstep; [|done].
    rewrite (IH s1 Hrun). destruct e as [op | op settled]; cbn in Hstep.
    + injection Hstep as <-. cbn [hook]. rewrite begin_invoked.
      change (calls (Call op :: rest)) with (op :: calls rest).
      by rewrite fmap_cons, <-(assoc_L (++)).
    + case_decide; [|done]. injection Hstep as <-. cbn. f_equal.
      rewrite settle_state.
      destruct op;
        rewrite ?checkServiceStatus_resume_eq, ?startService_resume_eq,
          ?stopService_resume_eq, ?loadInternVideo2_resume_eq,
          ?releaseInternVideo2_resume_eq, ?checkInternVideo2Status_resume_eq;
        try done; by destruct settled as [[[] d m er] | failure].
Qed.

(** C3, as stated, fails.  After a first [startService] the flag [starting]
    is true; a second call made then is not rejected: two invocations reach
    the backend and both calls are pending. *)
Lemma second_start_reaches_backend :
  ∃ s1 s2, run fresh [Call startService] = Some s1
    ∧ starting (loading (hook s1)) = true
    ∧ step s1 (Call startService) = Some s2
    ∧ invoked (hook s2) = [startServiceApi; startServiceApi]
    ∧ pending s2 = [startService; startService].
Proof. do 2 eexists. repeat split; reflexivity. Qed.

(** C3 (amended).  [startService] sets [starting] and invokes the backend
    in every state, whatever [starting] was; over any run, each call of an
    operation reaches the backend: the invocations are, in order, those of
    the calls made, so two concurrent [startService] calls yield two. *)
Theorem every_call_reaches_backend (trace : list event) (s : Session) :
  run fresh trace = Some s →
  invoked (hook s) = endpoint <$> calls trace
  ∧ ∀ st : State,
      invoked (begin startService st).2 = invoked st ++ [startServiceApi]
      ∧ starting (loading (begin startService st).2) = true.
Proof.
  intros Hrun. split; [|done].
  by rewrite (run_invoked trace fresh s Hrun).
Qed.

Lemma every_call_reaches_backend_witness :
  ∃ s, run fresh [Call startService; Call startService;
                  Settle startService succeeded] = Some s
       ∧ invoked (hook s) = [startServiceApi; startServiceApi].
Proof.
  eexists. split; [reflexivity|].
  exact (proj1 (every_call_reaches_backend
                  [Call startService; Call startService;
                   Settle startService succeeded] _ eq_refl)).
Defined.

(** C7, as stated, fails for [checkServiceStatus]: the call sets
    [checkingService], which was false; and when it settles it clears the
    flag, also while another [checkServiceStatus] is still pending. *)
Lemma checkServiceStatus_sets_flag :
  checkingService (loading initial) = false
  ∧ checkingService (loading (begin checkServiceStatus initial).2) = true
  ∧ ∃ s, run fresh [Call checkServiceStatus; Call checkServiceStatus;
                    Settle checkServiceStatus ready_snapshot] = Some s
         ∧ pending s = [checkServiceStatus]
         ∧ checkingService (loading (hook s)) = false.
Proof. repeat split. eexists. repeat split; reflexivity. Qed.

(** C7 (amended).  [checkInternVideo2Status] leaves all five busy flags as
    they are, when called and when it settles.  [checkServiceStatus] sets
    [checkingService] when called and clears it when it settles, and leaves
    the four other flags as they are. *)
Theorem status_checks_and_flags (settled : outcome IpcResult) (st : State) :
  loading (begin checkInternVideo2Status st).2 = loading st
  ∧ loading (settle checkInternVideo2Status settled st).2 = loading st
  ∧ loading (begin checkServiceStatus st).2
    = mkLoading (starting (loading st)) (stopping (loading st)) true
                (loadingInternVideo2 (loading st))
                (releasingInternVideo2 (loading st))
  ∧ loading (settle checkServiceStatus settled st).2
    = mkLoading (starting (loading st)) (stopping (loading st)) false
                (loadingInternVideo2 (loading st))
                (releasingInternVideo2 (loading st)).
Proof.
  rewrite !settle_state, checkServiceStatus_resume_eq,
    checkInternVideo2Status_resume_eq.
  repeat split. by destruct settled as [[[] d m e] | msg].
Qed.

(** *** Further properties of the hook *)

Lemma settle_result (op : Op) (settled : outcome IpcResult) (st : State) :
  (settle op settled st).1 =
  Returns match op with
          | checkServiceStatus | checkInternVideo2Status => None
          | _ => Some (succeeds settled)
          end.
Proof.
  destruct op; cbv [settle]; eff_unfold;
    rewrite ?checkServiceStatus_resume_eq, ?startService_resume_eq,
      ?stopService_resume_eq, ?loadInternVideo2_resume_eq,
      ?releaseInternVideo2_resume_eq, ?checkInternVideo2Status_resume_eq;
    try done; by destruct settled as [[[] d m e] | msg].
Qed.

Lemma begin_eq (op : Op) (st : State) :
  begin op st =
  (Returns tt,
   mkState (serviceState st)
     match op with
     | checkServiceStatus => with_checkingService true (loading st)
     | startService => with_starting true (loading st)
     | stopService => with_stopping true (loading st)
     | loadInternVideo2 => with_loadingInternVideo2 true (loading st)
     | releaseInternVideo2 => with_releasingInternVideo2 true (loading st)
     | checkInternVideo2Status => loading st
     end
     (invoked st ++ [endpoint op]) (console st)).
Proof. by destruct op. Qed.

Lemma settle_loading (op : Op) (settled : outcome IpcResult) (st : State) :
  loading (settle op settled st).2 =
  match op with
  | checkServiceStatus => with_checkingService false (loading st)
  | startService => with_starting false (loading st)
  | stopService => with_stopping false (loading st)
  | loadInternVideo2 => with_loadingInternVideo2 false (loading st)
  | releaseInternVideo2 => with_releasingInternVideo2 false (loading st)
  | checkInternVideo2Status => loading st
  end.
Proof.
  rewrite settle_state.
  destruct op;
    rewrite ?checkServiceStatus_resume_eq, ?startService_resume_eq,
      ?stopService_resume_eq, ?loadInternVideo2_resume_eq,
      ?releaseInternVideo2_resume_eq, ?checkInternVideo2Status_resume_eq;
    try done; by destruct settled as [[[] d m e] | msg].
Qed.

Lemma call_eq (op : Op) (settled : outcome IpcResult) (st : State) :
  call op settled st = settle op settled (begin op st).2.
Proof. unfold call. eff_unfold. by rewrite begin_eq. Qed.

(** X1.  No operation of the hook throws past its boundary: run to
    completion in any state and on any settlement of its IPC call (an
    envelope, or a rejection), each of the four commands resolves with a
    boolean, true exactly when the backend answered with success, and each of
    the two status checks resolves with [undefined]. *)
Theorem operations_always_resolve (op : Op) (settled : outcome IpcResult) (st : State) :
  (call op settled st).1 =
  Returns match op with
          | checkServiceStatus | checkInternVideo2Status => None
          | _ => Some (succeeds settled)
          end.
Proof.
  unfold call. eff_unfold. rewrite begin_eq. apply settle_result.
Qed.

Lemma busy_begin (op o : Op) (st : State) :
  busy (loading (begin op st).2) o = true →
  o = op ∨ busy (loading st) o = true.
Proof. rewrite begin_eq. destruct op, o; cbn; auto. Qed.

Lemma busy_settle (op o : Op) (settled : outcome IpcResult) (st : State) :
  busy (loading (settle op settled st).2) o = true →
  o ≠ op ∧ busy (loading st) o = true.
Proof. rewrite settle_loading. destruct op, o; cbn; try done; by split. Qed.

Lemma elem_of_take_out (op o : Op) (ops : list Op) :
  o ≠ op → o ∈ ops → o ∈ take_out op ops.
Proof.
  intros Hne. induction ops as [|x rest IH]; [done|].
  cbn. case_decide as Hx.
  - subst x. rewrite elem_of_cons. by intros [? | ?].
  - rewrite !elem_of_cons. intros [-> | Hin]; [by left | right; by apply IH].
Qed.

Lemma busy_is_pending (trace : list event) (s s' : Session) :
  (∀ op, busy (loading (hook s)) op = true → op ∈ pending s) →
  run s trace = Some s' →
  ∀ op, busy (loading (hook s')) op = true → op ∈ pending s'.
Proof.
  revert s. induction trace as [|e rest IH]; intros s Hinv Hrun.
  - by injection Hrun as <-.
  - cbn in Hrun. destruct (step s e) as [s1|] eqn:Hstep; [|done].
    apply (IH s1); [|done]. clear IH Hrun.
    destruct e as [op | op settled]; cbn in Hstep.
    + injection Hstep as <-. cbn. intros o Ho.
      rewrite elem_of_app, list_elem_of_singleton.
      destruct (busy_begin op o (hook s) Ho) as [-> | Hb]; [by right|].
      left. by apply Hinv.
    + case_decide; [|done]. injection Hstep as <-. cbn. intros o Ho.
      destruct (busy_settle op o settled (hook s) Ho) as [Hne Hb].
      apply elem_of_take_out; [done|]. by apply Hinv.
Qed.

(** X2.  Along every interleaving of calls and settlements from the initial
    state, a busy flag is true only while an operation of its kind is
    pending; once nothing is pending, all five flags are false (no failure
    path leaves a flag set). *)
Theorem busy_only_while_pending (trace : list event) (s : Session) :
  run fresh trace = Some s →
  (∀ op, busy (loading (hook s)) op = true → op ∈ pending s)
  ∧ (pending s = [] → loading (hook s) = idle).
Proof.
  intros Hrun.
  assert (Hinv : ∀ op, busy (loading (hook s)) op = true → op ∈ pending s).
  { apply (busy_is_pending trace fresh s); [by intros [] | done]. }
  split; [done|]. intros Hnone. rewrite Hnone in Hinv.
  destruct (loading (hook s)) as [a b c d e]. unfold idle.
  pose proof (Hinv startService) as H1. pose proof (Hinv stopService) as H2.
  pose proof (Hinv checkServiceStatus) as H3.
  pose proof (Hinv loadInternVideo2) as H4.
  pose proof (Hinv releaseInternVideo2) as H5. cbn in *.
  destruct a; [by apply elem_of_nil in H1|].
  destruct b; [by apply elem_of_nil in H2|].
  destruct c; [by apply elem_of_nil in H3|].
  destruct d; [by apply elem_of_nil in H4|].
  destruct e; [by apply elem_of_nil in H5|]. done.
Qed.

Lemma busy_only_while_pending_witness :
  ∃ s, run fresh busy_trace = Some s
       ∧ pending s = [] ∧ loading (hook s) = idle.
Proof.
  eexists. split; [vm_compute; reflexivity|]. split; [reflexivity|].
  apply (busy_only_while_pending busy_trace); reflexivity.
Defined.

(** X3.  The hook comes to believe the service running in two ways only: a
    [startService] that the backend answers with success, or a
    [checkServiceStatus] whose snapshot shows it running.  No other call or
    settlement turns [isRunning] from false to true. *)
Theorem running_only_by_start_or_snapshot (s s' : Session) (e : event) :
  step s e = Some s' →
  isRunning (serviceState (hook s)) = false →
  isRunning (serviceState (hook s')) = true →
  ∃ result,
    success result = true
    ∧ (e = Settle startService (Returns result)
       ∨ (e = Settle checkServiceStatus (Returns result)
          ∧ JS.truthy (data result) = true
          ∧ snapshot_running (data result) = true)).
Proof.
  destruct e as [op | op settled]; cbn [step].
  - intros [= <-]. cbn [hook]. rewrite begin_serviceState. congruence.
  - case_decide; [|done]. intros [= <-]. cbn [hook]. rewrite settle_state.
    destruct op;
      rewrite ?checkServiceStatus_resume_eq, ?startService_resume_eq,
        ?stopService_resume_eq, ?loadInternVideo2_resume_eq,
        ?releaseInternVideo2_resume_eq, ?checkInternVideo2Status_resume_eq;
      destruct settled as [[ok d m er] | failure]; cbn;
      try (destruct ok); cbn; try congruence.
    + destruct (JS.truthy d) eqn:Hd; cbn; [|congruence].
      intros _ Hrun. eexists. split; [|right; split; [reflexivity|]]; done.
    + intros _ _. eexists. split; [|left; reflexivity]. done.
Qed.

Lemma running_only_by_start_or_snapshot_witness :
  ∃ result,
    success result = true
    ∧ (Settle startService succeeded = Settle startService (Returns result)
       ∨ (Settle startService succeeded = Settle checkServiceStatus (Returns result)
          ∧ JS.truthy (data result) = true
          ∧ snapshot_running (data result) = true)).
Proof.
  apply (running_only_by_start_or_snapshot
           (mkSession (begin startService initial).2 [startService] [])
           (mkSession (call startService succeeded initial).2 []
                      [(startService, Returns (Some true))])
           (Settle startService succeeded)); reflexivity.
Defined.

(** X4.  Whatever the backend answers to [stopService] (success, failure,
    or a rejected call), the hook afterwards believes the service stopped;
    and a [startService] that does not succeed leaves it believed stopped as
    well, also when it was believed running before. *)
Theorem service_declared_down (settled : outcome IpcResult) (st : State) :
  isRunning (serviceState (call stopService settled st).2) = false
  ∧ isRunning (serviceState (call startService settled st).2) = succeeds settled.
Proof. by destruct settled as [[[] d m e] | msg]. Qed.

(** X5.  [internvideo2Loaded] turns from false to true in three ways only:
    a [loadInternVideo2] answered with success, a [checkInternVideo2Status]
    answered with success and a truthy [loaded], or a [checkServiceStatus]
    whose snapshot has the model loaded. *)
Theorem loaded_only_by_load_or_status (s s' : Session) (e : event) :
  step s e = Some s' →
  internvideo2Loaded (serviceState (hook s)) = false →
  internvideo2Loaded (serviceState (hook s')) = true →
  ∃ result,
    success result = true
    ∧ (e = Settle loadInternVideo2 (Returns result)
       ∨ (e = Settle checkInternVideo2Status (Returns result)
          ∧ JS.truthy (JS.opt_member (data result) "loaded") = true)
       ∨ (e = Settle checkServiceStatus (Returns result)
          ∧ snapshot_loaded (data result) = true)).
Proof.
  destruct e as [op | op settled]; cbn [step].
  - intros [= <-]. cbn [hook]. rewrite begin_serviceState. congruence.
  - case_decide; [|done]. intros [= <-]. cbn [hook]. rewrite settle_state.
    destruct op;
      rewrite ?checkServiceStatus_resume_eq, ?startService_resume_eq,
        ?stopService_resume_eq, ?loadInternVideo2_resume_eq,
        ?releaseInternVideo2_resume_eq, ?checkInternVideo2Status_resume_eq;
      destruct settled as [[ok d m er] | failure]; cbn;
      try (destruct ok); cbn; try congruence.
    + destruct (JS.truthy d) eqn:Hd; cbn; [|congruence].
      intros _ Hl. eexists. split; [|right; right; split; [reflexivity|]]; done.
    + intros _ _. eexists. split; [|left; reflexivity]. done.
    + rewrite truthy_or_false. intros _ Hl.
      eexists. split; [|right; left; split; [reflexivity|]]; done.
Qed.

Lemma loaded_only_by_load_or_status_witness :
  ∃ result,
    success result = true
    ∧ (Settle checkServiceStatus ready_snapshot = Settle loadInternVideo2 (Returns result)
       ∨ (Settle checkServiceStatus ready_snapshot
          = Settle checkInternVideo2Status (Returns result)
          ∧ JS.truthy (JS.opt_member (data result) "loaded") = true)
       ∨ (Settle checkServiceStatus ready_snapshot
          = Settle checkServiceStatus (Returns result)
          ∧ snapshot_loaded (data result) = true)).
Proof.
  apply (loaded_only_by_load_or_status
           (mkSession (begin checkServiceStatus initial).2 [checkServiceStatus] [])
           (mkSession (call checkServiceStatus ready_snapshot initial).2 []
                      [(checkServiceStatus, Returns None)])
           (Settle checkServiceStatus ready_snapshot));
    vm_compute; reflexivity.
Defined.

(** X6.  A success never clears an error recorded earlier, and a failure
    never touches the message: each of the four commands, when the backend
    answers with success, leaves [serviceState.error] as it was, and when it
    does not, leaves [serviceState.message] as it was. *)
Theorem stale_error_survives_success (op : Op) (settled : outcome IpcResult) (st : State) :
  op ≠ checkServiceStatus → op ≠ checkInternVideo2Status →
  (if succeeds settled
   then error (serviceState (call op settled st).2) = error (serviceState st)
   else message (serviceState (call op settled st).2) = message (serviceState st)).
Proof.
  intros H1 H2. destruct op; try done;
    by destruct settled as [[[] d m e] | msg].
Qed.

Lemma stale_error_survives_success_witness :
  error (serviceState
           (call startService succeeded
              (call startService (Throws "spawn failed") initial).2).2)
  = Some "Failed to start service".
Proof.
  exact (stale_error_survives_success startService succeeded
           (call startService (Throws "spawn failed") initial).2
           ltac:(discriminate) ltac:(discriminate)).
Defined.

(** X7.  [checkServiceStatus] overwrites the two beliefs with what the
    backend says: the [isRunning] and [internvideo2Loaded] it leaves depend on
    the settlement only, not on the state it ran in; and running it again on
    the same settlement changes nothing of [serviceState]. *)
Theorem checkServiceStatus_overwrites (settled : outcome IpcResult) (st st' : State) :
  isRunning (serviceState (call checkServiceStatus settled st).2)
  = isRunning (serviceState (call checkServiceStatus settled st').2)
  ∧ internvideo2Loaded (serviceState (call checkServiceStatus settled st).2)
    = internvideo2Loaded (serviceState (call checkServiceStatus settled st').2)
  ∧ serviceState (call checkServiceStatus settled
                    (call checkServiceStatus settled st).2).2
    = serviceState (call checkServiceStatus settled st).2.
Proof.
  rewrite !call_eq, !settle_state, !checkServiceStatus_resume_eq. cbn.
  destruct settled as [[ok d m e] | msg]; cbn; [|done].
  by destruct (ok && JS.truthy d).
Qed.

End HookFacts.

(** ** The remote backend *)

Section RemoteFacts.

Import Remote.

Lemma checkHealth_eq (this : RemoteVideoService) (settled : outcome Response) (net : Net) :
  checkHealth this settled net =
  (Returns match settled with
           | Returns response => ok response
           | Throws _ => false
           end,
   mkNet (requests net ++ [mkRequest "GET" (baseUrl this +:+ "/api/health") None None])
         (console net)).
Proof. by destruct settled. Qed.

(** C8.  A probe that meets a network failure reports "not running" and
    returns: [checkHealth] resolves with [false] when [fetch] rejects and
    throws in no case; [checkServiceStatus], when the IPC call rejects or
    answers with a failure envelope, sets [isRunning] and
    [internvideo2Loaded] to false and resolves normally. *)
Theorem probe_failure_is_not_running
    (reason : string) (this : RemoteVideoService) (net : Net)
    (st : Hook.State) (d : JS.value) (m e : option string) :
  (checkHealth this (Throws reason) net).1 = Returns false
  ∧ (∀ settled, returned (checkHealth this settled net).1 = true)
  ∧ (Hook.call Hook.checkServiceStatus (Throws reason) st).1 = Returns None
  ∧ Hook.isRunning
      (Hook.serviceState (Hook.call Hook.checkServiceStatus (Throws reason) st).2)
    = false
  ∧ Hook.internvideo2Loaded
      (Hook.serviceState (Hook.call Hook.checkServiceStatus (Throws reason) st).2)
    = false
  ∧ (Hook.call Hook.checkServiceStatus (Returns (Hook.mkIpc false d m e)) st).1
    = Returns None
  ∧ Hook.isRunning
      (Hook.serviceState
         (Hook.call Hook.checkServiceStatus (Returns (Hook.mkIpc false d m e)) st).2)
    = false
  ∧ Hook.internvideo2Loaded
      (Hook.serviceState
         (Hook.call Hook.checkServiceStatus (Returns (Hook.mkIpc false d m e)) st).2)
    = false.
Proof.
  split; [reflexivity|]. split.
  { intros settled. by rewrite checkHealth_eq. }
  repeat split; reflexivity.
Qed.

(** C9, as stated, fails.  Called with an argument object that has no
    [file], the handler answers with the message of the TypeError that reading
    [file.name] raised, not with the fixed message; called without an
    argument object, it returns nothing at all: the destructuring in its
    parameter list throws before the [try], and its promise rejects. *)
Lemma upload_without_file_other_message :
  (upload_video_handler (JS.Obj {[ "config" := JS.Obj zero_threshold ]}) offline).1
  = Returns (mkEnvelope false JS.Undefined
       (Some "Cannot read properties of undefined (reading 'name')"))
  ∧ (upload_video_handler JS.Undefined offline).1
    = Throws "Cannot destructure property 'file' of 'undefined' as it is undefined.".
Proof. split; vm_compute; reflexivity. Qed.

Lemma upload_video_handler_refuses_eq (args : JS.value) (net : Net) :
  requests (upload_video_handler args net).2 = requests net
  ∧ match args with
    | JS.Undefined | JS.Null => returned (upload_video_handler args net).1 = false
    | _ =>
        (upload_video_handler args net).1
        = Returns (mkEnvelope false JS.Undefined
             (Some match JS.opt_member args "file" with
                   | JS.Undefined => "Cannot read properties of undefined (reading 'name')"
                   | JS.Null => "Cannot read properties of null (reading 'name')"
                   | _ => upload_refusal
                   end))
    end.
Proof.
  destruct args as [ | | b | x | t | o]; try done.
  cbv [upload_video_handler JS.destructure JS.opt_member]; eff_unfold.
  by destruct (JS.get o "file").
Qed.

(** C9 (amended).  Whatever it is called with, the handler of
    ['remote-backend:upload-video'] sends no request and never answers with
    a success.  Called with an argument object whose [file] is neither
    [undefined] nor [null], it returns [{ success: false }] with the fixed
    message that the frontend should use RemoteVideoService directly; when
    [file] is [undefined] or [null], it returns [{ success: false }] with the
    message of the TypeError instead; called without an argument object
    ([undefined] or [null]), it rejects. *)
Theorem upload_video_handler_refuses (args : JS.value) (net : Net) :
  requests (upload_video_handler args net).2 = requests net
  ∧ match args with
    | JS.Undefined | JS.Null => returned (upload_video_handler args net).1 = false
    | _ =>
        (upload_video_handler args net).1
        = Returns (mkEnvelope false JS.Undefined
             (Some match JS.opt_member args "file" with
                   | JS.Undefined => "Cannot read properties of undefined (reading 'name')"
                   | JS.Null => "Cannot read properties of null (reading 'name')"
                   | _ => "Frontend should use RemoteVideoService directly. IPC cannot handle File objects."
                   end))
    end.
Proof. apply upload_video_handler_refuses_eq. Qed.

(** Lookups in the two object literals and in their encodings. *)

Lemma uploadConfig_lookup (config : option (gmap string JS.value)) :
  uploadConfig config !! "target_fps" = Some (JS.Num 1)
  ∧ uploadConfig config !! "detect_scenes"
    = Some (JS.Bool (JS.is_not_false (JS.get (spread config) "detect_scenes")))
  ∧ uploadConfig config !! "scene_threshold"
    = Some (JS.or (JS.get (spread config) "scene_threshold") (JS.Num 0.2))
  ∧ uploadConfig config !! "min_duration"
    = Some (JS.or (JS.get (spread config) "min_duration") (JS.Num 5.0))
  ∧ uploadConfig config !! "max_duration"
    = Some (JS.or (JS.get (spread config) "max_duration") (JS.Num 12.0))
  ∧ ∀ k, k ∉ upload_keys → uploadConfig config !! k = spread config !! k.
Proof.
  unfold uploadConfig.
  repeat split; try (by destruct config; simplify_map_eq).
  intros k Hk. unfold upload_keys in Hk.
  rewrite !not_elem_of_cons in Hk. destruct Hk as (? & ? & ? & ? & ? & _).
  by rewrite !lookup_insert_ne.
Qed.

Lemma encode_lookup (o : gmap string JS.value) (k : string) :
  omap JS.stringify o !! k = o !! k ≫= JS.stringify.
Proof. apply lookup_omap. Qed.

(** What [JSON.stringify] keeps and what it does not: a finite number other
    than zero is written as it is; [NaN], the infinities and [undefined] are
    not. *)
Example stringify_not_faithful :
  JS.encode {[ "scene_threshold" := JS.Num nan; "min_duration" := JS.Num infinity;
               "max_duration" := JS.Undefined; "fps" := JS.Num 0.5 ]}
  = JS.JObj {[ "scene_threshold" := JS.JNull; "min_duration" := JS.JNull;
               "fps" := JS.JNum 0.5 ]}.
Proof. vm_compute. reflexivity. Qed.

Lemma processConfig_eq (config : JS.value) (net : Net) :
  JS.nullish config = false →
  processConfig config net =
  (Returns
     (<["generate_embeddings" :=
          JS.Bool (JS.is_not_false (JS.opt_member config "generate_embeddings"))]>
        (<["max_duration" := JS.or (JS.opt_member config "max_duration") (JS.Num 12.0)]>
           (<["min_duration" := JS.or (JS.opt_member config "min_duration") (JS.Num 5.0)]>
              (<["scene_threshold" :=
                   JS.or (JS.opt_member config "scene_threshold") (JS.Num 0.2)]>
                 (<["detect_scenes" :=
                      JS.Bool (JS.is_not_false (JS.opt_member config "detect_scenes"))]>
                    (<["target_fps" := JS.Num 1]> (JS.spread config))))))),
   net).
Proof. by destruct config. Qed.

(** Without an argument object the handler rejects; without a configuration
    in it, it answers with a failure; it sends nothing in either case. *)
Lemma process_video_handler_no_config
    (constructed : outcome RemoteVideoService) (render : JS.value → string)
    (args : JS.value) (settled : outcome Response) (net : Net) :
  JS.nullish (JS.opt_member args "config") = true →
  requests (process_video_handler constructed render args settled net).2 = requests net
  ∧ if JS.nullish args
    then returned (process_video_handler constructed render args settled net).1 = false
    else ∃ envelope,
           (process_video_handler constructed render args settled net).1
           = Returns envelope
           ∧ success envelope = false ∧ is_Some (error envelope).
Proof.
  intros Hc. destruct args as [ | | b | x | t | o]; try done.
  1-3: by destruct constructed; (split; [done|]); eexists; repeat split.
  cbv [process_video_handler JS.destructure JS.opt_member] in *; eff_unfold.
  destruct constructed, (JS.get o "config");
    try done; (split; [done|]); eexists; repeat split; by eexists.
Qed.

Lemma process_video_handler_sends
    (this : RemoteVideoService) (render : JS.value → string)
    (args : gmap string JS.value) (settled : outcome Response) (net : Net) :
  JS.nullish (JS.get args "config") = false →
  ∃ cfg,
    (processConfig (JS.get args "config") net).1 = Returns cfg
    ∧ requests (process_video_handler (Returns this) render (JS.Obj args) settled net).2
      = requests net
        ++ [mkRequest "POST"
              (baseUrl this +:+ "/api/jobs/" +:+ render (JS.get args "jobId")
               +:+ "/process")
              (bearer this) (Some (JS.encode cfg))]
    ∧ ∃ envelope,
        (process_video_handler (Returns this) render (JS.Obj args) settled net).1
        = Returns envelope
        ∧ if success envelope then error envelope = None else is_Some (error envelope).
Proof.
  intros Hc. eexists. split; [by rewrite processConfig_eq|].
  cbv [process_video_handler JS.destructure]; eff_unfold.
  rewrite processConfig_eq by done.
  destruct settled as [[[] text [v | msg]] | msg]; cbn;
    (split; [reflexivity|]); eexists; (split; [reflexivity|]); cbn; by eauto.
Qed.

(** C10, as stated, fails.  A caller who supplies [scene_threshold: 0] (and
    [target_fps: 30]) sees [target_fps] replaced by 1, as claimed, but the
    threshold is not kept: 0.2 is sent in its place, by [uploadVideo] and by
    the handler alike. *)
Lemma zero_threshold_not_preserved :
  zero_threshold !! "scene_threshold" = Some (JS.Num 0)
  ∧ PrimFloat.eqb 0 0.2 = false
  ∧ requests (uploadVideo_send local_service (Some zero_threshold) offline).2
    = [mkRequest "POST" "http://localhost:8000/api/upload/video" None
         (Some (JS.JObj {[ "target_fps" := JS.JNum 1; "detect_scenes" := JS.JBool true;
                           "scene_threshold" := JS.JNum 0.2;
                           "min_duration" := JS.JNum 5.0;
                           "max_duration" := JS.JNum 12.0 ]}))]
  ∧ requests (process_video_handler (Returns local_service) (λ _, "job-1")
                (JS.Obj {[ "jobId" := JS.Str "job-1";
                           "config" := JS.Obj zero_threshold ]})
                unavailable offline).2
    = [mkRequest "POST" "http://localhost:8000/api/jobs/job-1/process" None
         (Some (JS.JObj {[ "target_fps" := JS.JNum 1; "detect_scenes" := JS.JBool true;
                           "scene_threshold" := JS.JNum 0.2;
                           "min_duration" := JS.JNum 5.0;
                           "max_duration" := JS.JNum 12.0;
                           "generate_embeddings" := JS.JBool true ]}))].
Proof. repeat split; vm_compute; reflexivity. Qed.

(** C10 (amended).  The JSON document sent by [uploadVideo] and by the
    ['remote-backend:process-video'] handler has [target_fps] equal to 1
    whatever the caller supplied.  [detect_scenes] (and, in the handler,
    [generate_embeddings]) is sent as a boolean, false exactly when the caller
    supplied [false].  [scene_threshold], [min_duration] and [max_duration]
    carry the JSON encoding of the supplied value when that value is truthy,
    and 0.2, 5.0 and 12.0 when it is absent or falsy (0, NaN, an empty string,
    null, false).  Every other key carries the JSON encoding of the supplied
    value.  That encoding keeps strings, booleans, [null], finite numbers and
    objects of such; it writes [null] for an infinity (so a supplied
    threshold of [Infinity], which is truthy, goes out as [null]) and leaves
    out a key whose value is [undefined].  The handler sends nothing when
    the argument object has no configuration. *)
Theorem target_fps_forced
    (this : RemoteVideoService) (config : option (gmap string JS.value))
    (render : JS.value → string) (args : gmap string JS.value)
    (settled : outcome Response) (net : Net) :
  (∃ sent,
      requests (uploadVideo_send this config net).2
      = requests net
        ++ [mkRequest "POST" (baseUrl this +:+ "/api/upload/video")
                      (bearer this) (Some (JS.JObj sent))]
      ∧ sent !! "target_fps" = Some (JS.JNum 1)
      ∧ sent !! "detect_scenes"
        = Some (JS.JBool (JS.is_not_false (JS.get (spread config) "detect_scenes")))
      ∧ sent !! "scene_threshold"
        = JS.stringify (if JS.truthy (JS.get (spread config) "scene_threshold")
                        then JS.get (spread config) "scene_threshold" else JS.Num 0.2)
      ∧ sent !! "min_duration"
        = JS.stringify (if JS.truthy (JS.get (spread config) "min_duration")
                        then JS.get (spread config) "min_duration" else JS.Num 5.0)
      ∧ sent !! "max_duration"
        = JS.stringify (if JS.truthy (JS.get (spread config) "max_duration")
                        then JS.get (spread config) "max_duration" else JS.Num 12.0)
      ∧ ∀ k, k ∉ upload_keys → sent !! k = spread config !! k ≫= JS.stringify)
  ∧ (let c := JS.get args "config" in
     if JS.nullish c
     then requests (process_video_handler (Returns this) render (JS.Obj args) settled net).2
          = requests net
     else
     ∃ sent,
      requests (process_video_handler (Returns this) render (JS.Obj args) settled net).2
      = requests net
        ++ [mkRequest "POST"
              (baseUrl this +:+ "/api/jobs/" +:+ render (JS.get args "jobId")
               +:+ "/process")
              (bearer this) (Some (JS.JObj sent))]
      ∧ sent !! "target_fps" = Some (JS.JNum 1)
      ∧ sent !! "detect_scenes"
        = Some (JS.JBool (JS.is_not_false (JS.opt_member c "detect_scenes")))
      ∧ sent !! "generate_embeddings"
        = Some (JS.JBool (JS.is_not_false (JS.opt_member c "generate_embeddings")))
      ∧ sent !! "scene_threshold"
        = JS.stringify (if JS.truthy (JS.opt_member c "scene_threshold")
                        then JS.opt_member c "scene_threshold" else JS.Num 0.2)
      ∧ sent !! "min_duration"
        = JS.stringify (if JS.truthy (JS.opt_member c "min_duration")
                        then JS.opt_member c "min_duration" else JS.Num 5.0)
      ∧ sent !! "max_duration"
        = JS.stringify (if JS.truthy (JS.opt_member c "max_duration")
                        then JS.opt_member c "max_duration" else JS.Num 12.0)
      ∧ ∀ k, k ∉ process_keys → sent !! k = JS.spread c !! k ≫= JS.stringify).
Proof.
  split.
  - exists (omap JS.stringify (uploadConfig config)). split; [reflexivity|].
    destruct (uploadConfig_lookup config) as (H1 & H2 & H3 & H4 & H5 & H6).
    rewrite !encode_lookup, H1, H2, H3, H4, H5.
    repeat split; try done.
    intros k Hk. by rewrite encode_lookup, H6.
  - cbv zeta. destruct (JS.nullish (JS.get args "config")) eqn:Hc.
    + by destruct (process_video_handler_no_config (Returns this) render
                     (JS.Obj args) settled net Hc) as [-> _].
    + destruct (process_video_handler_sends this render args settled net Hc)
        as (cfg & Hcfg & Hreq & _).
      exists (omap JS.stringify cfg). split; [done|].
      rewrite processConfig_eq in Hcfg by done. injection Hcfg as <-.
      rewrite !encode_lookup.
      repeat split; try (by simplify_map_eq).
      intros k Hk. unfold process_keys, upload_keys in Hk. cbn in Hk.
      rewrite !not_elem_of_cons in Hk. destruct Hk as (? & ? & ? & ? & ? & ? & _).
      by rewrite encode_lookup, !lookup_insert_ne.
Qed.

(** *** Further properties of the service and of the handlers *)

Lemma truthy_or_nonempty (v : JS.value) (s : string) :
  s ≠ "" → JS.truthy (JS.or v (JS.Str s)) = true.
Proof.
  intros Hs. unfold JS.or. destruct (JS.truthy v) eqn:Hv; [done|].
  cbn. by destruct s.
Qed.

Lemma uploadVideo_facts (this : RemoteVideoService)
    (config : option (gmap string JS.value)) (ev : XhrEvent) (net : Net) :
  ∃ result,
    (uploadVideo this config (Returns ev) net).1 = Returns result
    ∧ up_success result
      = match ev with
        | xhr_load status (Returns body) => (status =? 200)%Z && negb (JS.nullish body)
        | _ => false
        end
    ∧ (if up_success result
       then up_error result = JS.Undefined
       else JS.truthy (up_error result) = true)
    ∧ requests (uploadVideo this config (Returns ev) net).2
      = requests net
        ++ [mkRequest "POST" (baseUrl this +:+ "/api/upload/video") (bearer this)
                      (Some (JS.encode (uploadConfig config)))].
Proof.
  destruct ev as [status [body | reason] | ];
    cbv [uploadVideo uploadVideo_complete uploadVideo_send send JS.member upload_failed];
    eff_unfold; cbn.
  - destruct (status =? 200)%Z, body; cbn; eexists; repeat split;
      cbn; by rewrite ?truthy_or_nonempty.
  - destruct (status =? 200)%Z; cbn; eexists; repeat split.
  - eexists; repeat split.
Qed.

(** X12.  Once its request is sent, [uploadVideo] resolves and does not
    reject, whichever of the [load] and [error] events the request ends
    with.  The result is a success exactly when the response has status 200
    and its body parses to something other than [null]; every other result
    (another status, an unparsable body, a network error) is a failure that
    carries a truthy [error].  That one request is the only one sent. *)
Theorem uploadVideo_outcome (this : RemoteVideoService)
    (config : option (gmap string JS.value)) (ev : XhrEvent) (net : Net) :
  ∃ result,
    (uploadVideo this config (Returns ev) net).1 = Returns result
    ∧ up_success result
      = match ev with
        | xhr_load status (Returns body) => (status =? 200)%Z && negb (JS.nullish body)
        | _ => false
        end
    ∧ (if up_success result
       then up_error result = JS.Undefined
       else JS.truthy (up_error result) = true)
    ∧ requests (uploadVideo this config (Returns ev) net).2
      = requests net
        ++ [mkRequest "POST" (baseUrl this +:+ "/api/upload/video") (bearer this)
                      (Some (JS.encode (uploadConfig config)))].
Proof. apply uploadVideo_facts. Qed.

Lemma getJobStatus_eq (this : RemoteVideoService) (jobId : string)
    (settled : outcome Response) (net : Net) :
  getJobStatus this jobId settled net =
  (match settled with
   | Returns response =>
       if ok response then
         match json response with
         | Returns v => Returns v
         | Throws e => Throws ("Failed to get job status: " +:+ e)
         end
       else Throws ("Failed to get job status: Failed to get job status: "
                    +:+ statusText response)
   | Throws e => Throws ("Failed to get job status: " +:+ e)
   end,
   mkNet (requests net
          ++ [mkRequest "GET" (baseUrl this +:+ "/api/jobs/" +:+ jobId)
                        (bearer this) None])
         (console net)).
Proof. by destruct settled as [[[] text [v | e]] | e]. Qed.

Lemma processVideo_eq (this : RemoteVideoService) (jobId : string)
    (config : gmap string JS.value) (settled : outcome Response) (net : Net) :
  processVideo this jobId config settled net =
  (match settled with
   | Returns response =>
       if ok response then
         match json response with
         | Returns v => Returns v
         | Throws e => Throws ("Failed to start processing: " +:+ e)
         end
       else Throws ("Failed to start processing: Failed to start processing: "
                    +:+ statusText response)
   | Throws e => Throws ("Failed to start processing: " +:+ e)
   end,
   mkNet (requests net
          ++ [mkRequest "POST" (baseUrl this +:+ "/api/jobs/" +:+ jobId +:+ "/process")
                        (bearer this) (Some (JS.encode config))])
         (console net)).
Proof. by destruct settled as [[[] text [v | e]] | e]. Qed.

(** X13.  [getJobStatus] and [processVideo] send one request each and then
    either hand back the parsed body of an ok response, or throw; on a
    response that is not ok the message names the failure twice
    ("Failed to get job status: Failed to get job status: <statusText>"),
    because the error thrown inside the [try] is caught and wrapped again by
    the method's own [catch]; a rejected fetch and an unparsable body are
    wrapped once.  The body [processVideo] sends is the JSON encoding of
    the configuration it is given: a member whose value is [undefined] is
    left out of it, and [NaN] and the infinities are written [null]. *)
Theorem service_errors_are_wrapped (this : RemoteVideoService) (jobId : string)
    (config : gmap string JS.value) (settled : outcome Response) (net : Net) :
  (getJobStatus this jobId settled net).1
  = match body_of settled with
    | Returns v => Returns v
    | Throws e =>
        Throws (match settled with
                | Returns response =>
                    if ok response then "Failed to get job status: " +:+ e
                    else "Failed to get job status: Failed to get job status: " +:+ e
                | Throws _ => "Failed to get job status: " +:+ e
                end)
    end
  ∧ (processVideo this jobId config settled net).1
    = match body_of settled with
      | Returns v => Returns v
      | Throws e =>
          Throws (match settled with
                  | Returns response =>
                      if ok response then "Failed to start processing: " +:+ e
                      else "Failed to start processing: Failed to start processing: " +:+ e
                  | Throws _ => "Failed to start processing: " +:+ e
                  end)
      end
  ∧ requests (getJobStatus this jobId settled net).2
    = requests net
      ++ [mkRequest "GET" (baseUrl this +:+ "/api/jobs/" +:+ jobId) (bearer this) None]
  ∧ (∃ body,
       requests (processVideo this jobId config settled net).2
       = requests net
         ++ [mkRequest "POST" (baseUrl this +:+ "/api/jobs/" +:+ jobId +:+ "/process")
                       (bearer this) (Some (JS.JObj body))]
       ∧ ∀ k, body !! k = config !! k ≫= JS.stringify).
Proof.
  rewrite getJobStatus_eq, processVideo_eq.
  split; [|split; [|split]]; try by destruct settled as [[[] text [v | e]] | e].
  exists (omap JS.stringify config). split; [done|]. intros k. apply encode_lookup.
Qed.

(** X14.  The three handlers that take no argument object (job status,
    health, base URL) never throw: each answers with an envelope, and an
    envelope that reports a failure carries an error message.  The upload
    and processing handlers destructure their argument in the parameter
    list, before the [try]: called with [undefined] or [null] they reject;
    called with anything else they answer with an envelope in the same way.
    The upload and base-URL handlers send no request; the others send at
    most one, and none when [RemoteVideoService] cannot be constructed or
    (for processing) the argument is missing or holds no configuration. *)
Theorem handlers_answer_with_envelopes
    (constructed : outcome RemoteVideoService) (render : JS.value → string)
    (args : JS.value) (jobId : string) (settled : outcome Response) (net : Net) :
  (requests (upload_video_handler args net).2 = requests net
   ∧ if JS.nullish args
     then returned (upload_video_handler args net).1 = false
     else ∃ e, (upload_video_handler args net).1 = Returns e
               ∧ success e = false ∧ is_Some (error e))
  ∧ (∃ e, (get_base_url_handler constructed net).1 = Returns e
          ∧ (if success e then error e = None else is_Some (error e))
          ∧ requests (get_base_url_handler constructed net).2 = requests net)
  ∧ (∃ e, (get_job_status_handler constructed jobId settled net).1 = Returns e
          ∧ (if success e then error e = None else is_Some (error e))
          ∧ length (requests (get_job_status_handler constructed jobId settled net).2)
            = length (requests net) + (if returned constructed then 1 else 0))
  ∧ (length (requests (process_video_handler constructed render args settled net).2)
     = length (requests net)
       + (if returned constructed && negb (JS.nullish (JS.opt_member args "config"))
          then 1 else 0)
     ∧ if JS.nullish args
       then returned (process_video_handler constructed render args settled net).1
            = false
       else ∃ e, (process_video_handler constructed render args settled net).1
                 = Returns e
                 ∧ (if success e then error e = None else is_Some (error e)))
  ∧ (∃ e, (check_health_handler constructed settled net).1 = Returns e
          ∧ (if success e then error e = None else is_Some (error e))
          ∧ length (requests (check_health_handler constructed settled net).2)
            = length (requests net) + (if returned constructed then 1 else 0)).
Proof.
  split; [|split; [|split; [|split]]].
  - destruct (upload_video_handler_refuses_eq args net) as [Hreq Hres].
    split; [done|].
    destruct args; try done; rewrite Hres; eexists;
      (split; [reflexivity|]); (split; [done | by eexists]).
  - destruct constructed; eexists; (split; [reflexivity|]);
      (split; [cbn; by eauto | done]).
  - destruct constructed as [this | reason];
      [|eexists; (split; [reflexivity|]); cbn;
         (split; [by eauto | by rewrite Nat.add_0_r])].
    cbv [get_job_status_handler]; eff_unfold; cbn. rewrite getJobStatus_eq.
    destruct settled as [[[] text [v | e]] | e]; cbn; eexists;
      (split; [reflexivity|]); cbn; rewrite ?length_app; cbn;
      (split; [by eauto | lia]).
  - destruct (JS.nullish (JS.opt_member args "config")) eqn:Hc.
    + destruct (process_video_handler_no_config constructed render args settled net Hc)
        as [Hreq Hres].
      rewrite Hreq, andb_false_r, Nat.add_0_r. split; [done|].
      destruct (JS.nullish args); [done|].
      destruct Hres as (e & -> & Hs & He). exists e. by rewrite Hs.
    + destruct args as [ | | b | x | t | o]; try done. cbn in Hc.
      destruct constructed as [this | reason].
      * destruct (process_video_handler_sends this render o settled net Hc)
          as (cfg & _ & -> & e & -> & He).
        rewrite length_app. cbn. split; [done|]. by exists e.
      * cbv [process_video_handler JS.destructure]; eff_unfold. cbn.
        rewrite Nat.add_0_r. split; [done|]. eexists. split; [reflexivity|]. by eexists.
  - destruct constructed as [this | reason];
      [|eexists; (split; [reflexivity|]); cbn;
         (split; [by eauto | by rewrite Nat.add_0_r])].
    cbv [check_health_handler]; eff_unfold; cbn. rewrite checkHealth_eq. cbn.
    eexists. split; [reflexivity|]. cbn. rewrite length_app. cbn. split; [done | lia].
Qed.

(** X15.  The health handler reports the backend's health in [data], not
    in [success]: once the service object exists, the envelope is
    [{ success: true, data: <healthy> }] whatever the network does, with
    [data] false for a rejected fetch and for a response that is not ok. *)
Theorem check_health_handler_always_succeeds (this : RemoteVideoService)
    (settled : outcome Response) (net : Net) :
  (check_health_handler (Returns this) settled net).1
  = Returns (mkEnvelope true
               (JS.Bool match settled with
                        | Returns response => ok response
                        | Throws _ => false
                        end)
               None).
Proof.
  cbv [check_health_handler]; eff_unfold; cbn. by rewrite checkHealth_eq.
Qed.

End RemoteFacts.

(** ** The upload page *)

Section UploadFacts.

Import Remote Upload.

Ltac upload_unfold :=
  cbv [handleUpload handleProcess poll_tick fire pollJobStatus clearInterval
       setIsUploading setIsProcessing setUploadResult setJobStatus set_polling
       onUploadComplete onProcessComplete on_net console_log JS.member];
  eff_unfold.

Ltac split_ifs' :=
  repeat match goal with
         | |- context [if ?b then _ else _] => destruct b eqn:?
         end.

Lemma handleProcess_facts (service : RemoteVideoService) (jobId : string)
    (settled : outcome Response) (p : Page) :
  (handleProcess service jobId settled p).1 = Returns tt
  ∧ isProcessing (handleProcess service jobId settled p).2
    = match body_of settled with
      | Returns v => negb (JS.nullish v)
      | Throws _ => false
      end
  ∧ polling (handleProcess service jobId settled p).2
    = match body_of settled with
      | Returns v =>
          if JS.truthy (JS.opt_member v "success")
          then polling p ++ [jobId] else polling p
      | Throws _ => polling p
      end
  ∧ requests (net (handleProcess service jobId settled p).2)
    = requests (net p)
      ++ [mkRequest "POST" (baseUrl service +:+ "/api/jobs/" +:+ jobId +:+ "/process")
                    (bearer service) (Some (JS.encode (config p)))].
Proof.
  upload_unfold. cbn. rewrite processVideo_eq.
  destruct settled as [[[] text [v | e]] | e]; cbn; try done.
  destruct v; cbn; try done; by split_ifs'.
Qed.

(** X16.  [handleProcess] never throws and sends one processing request,
    whose body is the JSON encoding of the page's configuration (so a [NaN]
    left in it by an emptied number field goes out as [null]).  Afterwards
    [isProcessing] is
    false only if the request failed or the answer was [null]; polling is
    started only if the answer has a truthy [success].  So an answer that is
    an object without a truthy [success] leaves [isProcessing] set with no
    polling running: nothing this function started will clear it. *)
Theorem handleProcess_outcome (service : RemoteVideoService) (jobId : string)
    (settled : outcome Response) (p : Page) :
  (handleProcess service jobId settled p).1 = Returns tt
  ∧ isProcessing (handleProcess service jobId settled p).2
    = match body_of settled with
      | Returns v => negb (JS.nullish v)
      | Throws _ => false
      end
  ∧ polling (handleProcess service jobId settled p).2
    = match body_of settled with
      | Returns v =>
          if JS.truthy (JS.opt_member v "success")
          then polling p ++ [jobId] else polling p
      | Throws _ => polling p
      end
  ∧ requests (net (handleProcess service jobId settled p).2)
    = requests (net p)
      ++ [mkRequest "POST" (baseUrl service +:+ "/api/jobs/" +:+ jobId +:+ "/process")
                    (bearer service) (Some (JS.encode (config p)))].
Proof. apply handleProcess_facts. Qed.

Lemma handleProcess_frame (service : RemoteVideoService) (jobId : string)
    (settled : outcome Response) (p : Page) :
  uploadResult (handleProcess service jobId settled p).2 = uploadResult p
  ∧ uploads_reported (handleProcess service jobId settled p).2 = uploads_reported p.
Proof.
  upload_unfold. cbn. rewrite processVideo_eq.
  destruct settled as [[[] text [v | e]] | e]; cbn; try done.
  destruct v; cbn; try done; by split_ifs'.
Qed.

Lemma poll_tick_outcome (service : RemoteVideoService) (jobId : string)
    (settled : outcome Response) (p : Page) :
  (poll_tick service jobId settled p).1 = Returns tt
  ∧ polling (poll_tick service jobId settled p).2
    = (if stops settled then without jobId (polling p) else polling p)
  ∧ isProcessing (poll_tick service jobId settled p).2
    = (if stops settled then false else isProcessing p)
  ∧ requests (net (poll_tick service jobId settled p).2)
    = requests (net p)
      ++ [mkRequest "GET" (baseUrl service +:+ "/api/jobs/" +:+ jobId)
                    (bearer service) None]
  ∧ jobs_reported (poll_tick service jobId settled p).2
    = jobs_reported p
      ++ match body_of settled with
         | Returns v =>
             if JS.is_string (JS.opt_member v "status") "completed"
                || JS.is_string (JS.opt_member v "status") "failed"
             then [v] else []
         | Throws _ => []
         end.
Proof.
  upload_unfold. cbn. rewrite getJobStatus_eq. unfold stops.
  destruct settled as [[[] text [v | e]] | e]; cbn; rewrite ?app_nil_r; try done.
  destruct v; cbn; rewrite ?app_nil_r; try done.
  split_ifs'; cbn; by rewrite ?app_nil_r.
Qed.

Lemma fire_active (service : RemoteVideoService) (jobId : string)
    (settled : outcome Response) (p : Page) :
  jobId ∈ polling p → fire service jobId settled p = poll_tick service jobId settled p.
Proof.
  intros Hin. cbv [fire Eff.gets]; eff_unfold. by rewrite bool_decide_eq_true_2.
Qed.

Lemma poll_inactive (service : RemoteVideoService) (jobId : string)
    (replies : list (outcome Response)) (p : Page) :
  jobId ∉ polling p → poll service jobId replies p = (Returns tt, p).
Proof.
  intros Hout. induction replies as [|settled rest IH]; [done|].
  cbn [poll]. cbv [fire Eff.gets]; eff_unfold.
  by rewrite bool_decide_eq_false_2.
Qed.

Lemma stops_false_nothing_final (settled : outcome Response) :
  stops settled = false →
  match body_of settled with
  | Returns v =>
      if JS.is_string (JS.opt_member v "status") "completed"
         || JS.is_string (JS.opt_member v "status") "failed"
      then [v] else []
  | Throws _ => []
  end = [].
Proof.
  unfold stops. destruct (body_of settled) as [v | e]; [|done].
  destruct (JS.nullish v); [done|]. cbn. by intros ->.
Qed.

(** X17.  Polling stops at the first job-status reply that ends it (a final
    status, a [null] body, or a request that fails) and asks nothing after
    that: with one interval running for the job, the requests sent are those
    of the firings up to that reply, included; the interval is then cleared
    and [isProcessing] is false; and the parent's [onProcessComplete] is
    called at most once. *)
Theorem polling_stops_at_first_end (service : RemoteVideoService) (jobId : string)
    (replies : list (outcome Response)) (p : Page) :
  polling p = [jobId] →
  (poll service jobId replies p).1 = Returns tt
  ∧ requests (net (poll service jobId replies p).2)
    = requests (net p)
      ++ replicate (length (until_stop replies))
           (mkRequest "GET" (baseUrl service +:+ "/api/jobs/" +:+ jobId)
                      (bearer service) None)
  ∧ polling (poll service jobId replies p).2
    = (if existsb stops replies then [] else [jobId])
  ∧ isProcessing (poll service jobId replies p).2
    = (if existsb stops replies then false else isProcessing p)
  ∧ length (jobs_reported (poll service jobId replies p).2)
    ≤ length (jobs_reported p) + 1.
Proof.
  revert p. induction replies as [|settled rest IH]; intros p Hp.
  - cbn. rewrite app_nil_r. repeat split; [done | lia].
  - cbn [poll]. eff_unfold.
    rewrite fire_active by (rewrite Hp; apply list_elem_of_singleton; done).
    destruct (poll_tick_outcome service jobId settled p)
      as (Hret & Hpoll & Hproc & Hreq & Hrep).
    destruct (poll_tick service jobId settled p) as [o p1]. cbn [fst snd] in *.
    subst o. cbn [until_stop existsb].
    destruct (stops settled) eqn:Hstop; cbn [orb length replicate].
    + rewrite Hp in Hpoll. cbn in Hpoll. rewrite String.eqb_refl in Hpoll.
      rewrite poll_inactive by (rewrite Hpoll; apply not_elem_of_nil).
      cbn. repeat split; try done.
      rewrite Hrep, length_app.
      destruct (body_of settled) as [v|]; [|cbn; lia].
      destruct (_ || _); cbn; lia.
    + rewrite Hp in Hpoll.
      destruct (IH p1 Hpoll) as (H1 & H2 & H3 & H4 & H5).
      repeat split; try done.
      * rewrite H2, Hreq. by rewrite <-(assoc_L (++)).
      * by rewrite H4, Hproc.
      * rewrite Hrep, (stops_false_nothing_final _ Hstop), app_nil_r in H5. done.
Qed.

Lemma polling_stops_at_first_end_witness :
  length (requests (net (poll local_service "job-1"
                           [answer (job_state "processing"); unavailable;
                            answer (job_state "completed")]
                           (handleProcess local_service "job-1"
                              (answer (JS.Obj {[ "success" := JS.Bool true ]}))
                              (first_render (Some "clip.mp4"))).2).2))
  = 3
  ∧ polling (poll local_service "job-1"
               [answer (job_state "processing"); unavailable;
                answer (job_state "completed")]
               (handleProcess local_service "job-1"
                  (answer (JS.Obj {[ "success" := JS.Bool true ]}))
                  (first_render (Some "clip.mp4"))).2).2
    = [].
Proof.
  destruct (polling_stops_at_first_end local_service "job-1"
              [answer (job_state "processing"); unavailable;
               answer (job_state "completed")]
              (handleProcess local_service "job-1"
                 (answer (JS.Obj {[ "success" := JS.Bool true ]}))
                 (first_render (Some "clip.mp4"))).2)
    as (_ & Hreq & Hpoll & _); [vm_compute; reflexivity|].
  split; [by rewrite Hreq | exact Hpoll].
Defined.

(** X18.  [handleUpload] does nothing without a selected file.  With one, it
    never throws and always ends with [isUploading] false.  When the upload
    request goes out, the result of the upload is stored and reported to the
    parent once, and processing is requested exactly when the upload
    succeeded with a truthy [job_id]: two requests go out in that case, one
    otherwise.  When [uploadVideo] rejects (the request could not be set up),
    no request goes out, the parent is not told, and a failure carrying the
    message of the error is stored as the result. *)
Theorem handleUpload_outcome (service : RemoteVideoService) (render : JS.value → string)
    (uploaded : outcome XhrEvent) (processed : outcome Response) (p : Page) :
  match selectedFile p with
  | None => handleUpload service render uploaded processed p = (Returns tt, p)
  | Some _ =>
      (handleUpload service render uploaded processed p).1 = Returns tt
      ∧ isUploading (handleUpload service render uploaded processed p).2 = false
      ∧ match uploaded with
        | Throws reason =>
            uploadResult (handleUpload service render uploaded processed p).2
            = Some (upload_failed (JS.Str reason))
            ∧ uploads_reported (handleUpload service render uploaded processed p).2
              = uploads_reported p
            ∧ requests (net (handleUpload service render uploaded processed p).2)
              = requests (net p)
        | Returns ev =>
            ∃ result,
              (uploadVideo service (Some (config p)) (Returns ev) (net p)).1
              = Returns result
              ∧ uploadResult (handleUpload service render uploaded processed p).2
                = Some result
              ∧ uploads_reported (handleUpload service render uploaded processed p).2
                = uploads_reported p ++ [result]
              ∧ length (requests
                          (net (handleUpload service render uploaded processed p).2))
                = length (requests (net p))
                  + (if up_success result && JS.truthy (job_id result) then 2 else 1)
        end
  end.
Proof.
  destruct p as [file up pr res js cfg pl n ur jr]. cbn [selectedFile].
  destruct file as [file|]; [|reflexivity].
  destruct uploaded as [ev | reason]; [|by repeat split].
  destruct (uploadVideo_facts service (Some cfg) ev n)
    as (result & Hres & _ & _ & Hreq).
  cbv [handleUpload Eff.gets setIsUploading setUploadResult onUploadComplete on_net
       console_log]; eff_unfold. cbn -[uploadVideo handleProcess].
  destruct (uploadVideo service (Some cfg) (Returns ev) n) as [o n1].
  cbn [fst snd] in *. subst o. cbn -[handleProcess].
  destruct (up_success result && JS.truthy (job_id result)) eqn:Hgo;
    cbn -[handleProcess].
  - match goal with
    | |- context [handleProcess ?s ?j ?r ?q] =>
        destruct (handleProcess_facts s j r q) as (Hret & _ & _ & Hreq2);
        destruct (handleProcess_frame s j r q) as (Hres2 & Hrep2);
        destruct (handleProcess s j r q) as [o p2]
    end.
    cbn [fst snd] in *. subst o. cbn.
    repeat split. exists result. repeat split; [done..|].
    rewrite Hreq2, Hgo. cbn. rewrite Hreq, !length_app. cbn. lia.
  - repeat split. exists result. repeat split.
    rewrite Hgo, Hreq, length_app. cbn. lia.
Qed.

End UploadFacts.

(** ** The backend settings card *)

Section BackendFacts.

Import Remote Backend.

Lemma prefix_append (s t : string) : String.prefix s (s +:+ t) = true.
Proof.
  induction s as [|a s IH]; [by destruct t|].
  change (String a s +:+ t) with (String a (s +:+ t)). cbn [String.prefix].
  destruct (Ascii.ascii_dec a a); [exact IH | done].
Qed.

(** X22.  [testConnection] never throws, sends one request, to
    [<url>/api/health] and without an [Authorization] header (also when an API
    key is configured), and ends with [isTesting] false and a result set.  The
    result is a success exactly when the response is ok and its body parses
    to something other than [null]; every other result is a failure whose
    message starts with "Connection failed: ". *)
Theorem testConnection_outcome (render : JS.value → string)
    (settled : outcome Reply) (c : Card) :
  (testConnection render settled c).1 = Returns tt
  ∧ isTesting (testConnection render settled c).2 = false
  ∧ requests (net (testConnection render settled c).2)
    = requests (net c)
      ++ [mkRequest "GET" (cfg_url (settings c) +:+ "/api/health") None None]
  ∧ ∃ result,
      testResult (testConnection render settled c).2 = Some result
      ∧ test_success result
        = match settled with
          | Returns reply =>
              ok (response reply)
              && match json (response reply) with
                 | Returns body => negb (JS.nullish body)
                 | Throws _ => false
                 end
          | Throws _ => false
          end
      ∧ (if test_success result then True
         else String.prefix "Connection failed: " (test_message result) = true).
Proof.
  cbv [testConnection setIsTesting setTestResult on_net send Eff.gets JS.member];
    eff_unfold. cbn.
  destruct settled as [[code [[] text [body | e]]] | e]; [destruct body|..]; cbn.
  all: split; [reflexivity|]; split; [reflexivity|]; split; [reflexivity|].
  all: eexists; split; [reflexivity|]; split; [reflexivity|]; cbn.
  all: first [exact I | apply prefix_append].
Qed.

End BackendFacts.

(** ** Model files *)

Section ModelsFacts.

Import Models.

Ltac models_unfold :=
  cbv [check_model_files download_internvideo2 transfer on_interruption cleanup
       failure join_arg access existsSync mkdirSync createWriteStream pipe rmSync
       https_get request_setTimeout console_error join set_fs];
  eff_unfold.

(** *** The file system *)

Lemma stat_app (n : node) (p q : path) :
  stat n (p ++ q) = stat n p ≫= λ m, stat m q.
Proof.
  revert n. induction p as [|name rest IH]; intros n; [done|].
  cbn. destruct n as [size | entries]; [done|].
  destruct (entries !! name); [apply IH | done].
Qed.

Lemma stat_prefix (n : node) (p q : path) :
  is_Some (stat n (p ++ q)) → is_Some (stat n p).
Proof. rewrite stat_app. destruct (stat n p); [eauto | by intros [? [=]]]. Qed.

Lemma stat_rm (n : node) (p : path) :
  p ≠ [] → stat (rm n p) p = None.
Proof.
  revert n. induction p as [|name rest IH]; intros n Hp; [done|].
  destruct n as [size | entries]; [done|].
  destruct rest as [|name' rest'].
  - cbn. by rewrite lookup_delete_eq.
  - cbn [rm]. destruct (entries !! name) as [child|] eqn:Hchild.
    + cbn [stat]. rewrite lookup_insert_eq. by apply IH.
    + cbn [stat]. by rewrite Hchild.
Qed.

Lemma stat_none_below (n : node) (p q : path) :
  stat n p = None → stat n (p ++ q) = None.
Proof. intros Hp. by rewrite stat_app, Hp. Qed.

Lemma stat_rm_below (n : node) (p q : path) :
  p ≠ [] → stat (rm n p) (p ++ q) = None.
Proof. intros Hp. by rewrite stat_app, stat_rm. Qed.

Lemma stat_open_w (n n' : node) (p : path) :
  open_w n p = Some n' → stat n' p = Some (File 0).
Proof.
  revert n n'. induction p as [|name rest IH]; intros n n' Hopen.
  - destruct n; [by injection Hopen as <- | done].
  - destruct n as [size | entries]; [done|]. cbn in Hopen.
    destruct (entries !! name) as [child|] eqn:Hchild.
    + destruct (open_w child rest) as [child'|] eqn:Hrec; [|done].
      injection Hopen as <-. cbn. rewrite lookup_insert_eq. by apply (IH child).
    + destruct rest; [|done]. injection Hopen as <-.
      cbn. by rewrite lookup_insert_eq.
Qed.

Lemma stat_append (n : node) (p : path) (size bytes : N) :
  stat n p = Some (File size) →
  stat (append n p bytes) p = Some (File (size + bytes)).
Proof.
  revert n. induction p as [|name rest IH]; intros n Hstat.
  - injection Hstat as ->. done.
  - destruct n as [size' | entries]; [done|]. cbn in *.
    destruct (entries !! name) as [child|] eqn:Hchild; [|done].
    cbn. rewrite lookup_insert_eq. by apply IH.
Qed.

Lemma stat_pipe (chunks : list N) (n : node) (p : path) (size : N) :
  stat n p = Some (File size) →
  is_Some (stat (foldl (λ n' bytes, append n' p bytes) n chunks) p).
Proof.
  revert n size. induction chunks as [|bytes rest IH]; intros n size Hstat.
  - by exists (File size).
  - cbn. apply (IH _ (size + bytes)%N). by apply stat_append.
Qed.

Lemma stat_empty_dir (q : path) : q ≠ [] → stat (Dir ∅) q = None.
Proof. by destruct q. Qed.

Lemma stat_file_below (size : N) (q : path) : q ≠ [] → stat (File size) q = None.
Proof. by destruct q. Qed.

Lemma not_prefix_cons (x : string) (q p : path) :
  ¬ (x :: q) `prefix_of` (x :: p) → ¬ q `prefix_of` p.
Proof. intros Hn Hp. apply Hn. by apply prefix_cons. Qed.

Lemma not_prefix_nonempty (q p : path) : ¬ q `prefix_of` p → q ≠ [].
Proof. intros Hn ->. apply Hn, prefix_nil. Qed.

Lemma stat_mkdirp_other (p q : path) (n n' : node) :
  mkdirp n p = Some n' → ¬ q `prefix_of` p → stat n' q = stat n q.
Proof.
  revert q n n'. induction p as [|name rest IH]; intros q n n' Hmk Hq.
  - destruct n; [done | by injection Hmk as <-].
  - destruct n as [size | entries]; [done|]. cbn in Hmk.
    destruct (mkdirp (default (Dir ∅) (entries !! name)) rest) as [child|] eqn:Hrec;
      [|done].
    injection Hmk as <-.
    destruct q as [|x q']; [by destruct Hq; apply prefix_nil|].
    cbn. destruct (decide (x = name)) as [-> | Hne].
    + rewrite lookup_insert_eq.
      rewrite (IH q' _ _ Hrec (not_prefix_cons _ _ _ Hq)).
      destruct (entries !! name); [done|].
      apply stat_empty_dir, (not_prefix_nonempty _ rest), (not_prefix_cons name), Hq.
    + by rewrite lookup_insert_ne.
Qed.

Lemma stat_open_w_other (p q : path) (n n' : node) :
  open_w n p = Some n' → ¬ q `prefix_of` p → stat n' q = stat n q.
Proof.
  revert q n n'. induction p as [|name rest IH]; intros q n n' Hopen Hq.
  - destruct n; [|done]. injection Hopen as <-.
    by rewrite !stat_file_below by by apply (not_prefix_nonempty _ []).
  - destruct n as [size | entries]; [done|]. cbn in Hopen.
    destruct q as [|x q']; [by destruct Hq; apply prefix_nil|].
    destruct (entries !! name) as [child|] eqn:Hchild.
    + destruct (open_w child rest) as [child'|] eqn:Hrec; [|done].
      injection Hopen as <-. cbn.
      destruct (decide (x = name)) as [-> | Hne].
      * rewrite lookup_insert_eq, Hchild.
        apply (IH q' _ _ Hrec), (not_prefix_cons name), Hq.
      * by rewrite lookup_insert_ne.
    + destruct rest; [|done]. injection Hopen as <-. cbn.
      destruct (decide (x = name)) as [-> | Hne].
      * rewrite lookup_insert_eq, Hchild.
        apply stat_file_below, (not_prefix_nonempty _ []), (not_prefix_cons name), Hq.
      * by rewrite lookup_insert_ne.
Qed.

Lemma stat_append_other (p q : path) (n : node) (bytes : N) :
  ¬ q `prefix_of` p → stat (append n p bytes) q = stat n q.
Proof.
  revert q n. induction p as [|name rest IH]; intros q n Hq.
  - destruct n; [cbn|done].
    by rewrite !stat_file_below by by apply (not_prefix_nonempty _ []).
  - destruct n as [size | entries]; [done|]. cbn.
    destruct (entries !! name) as [child|] eqn:Hchild; [|done].
    destruct q as [|x q']; [by destruct Hq; apply prefix_nil|]. cbn.
    destruct (decide (x = name)) as [-> | Hne].
    + rewrite lookup_insert_eq, Hchild.
      apply IH, (not_prefix_cons name), Hq.
    + by rewrite lookup_insert_ne.
Qed.

Lemma stat_pipe_other (chunks : list N) (p q : path) (n : node) :
  ¬ q `prefix_of` p →
  stat (foldl (λ n' bytes, append n' p bytes) n chunks) q = stat n q.
Proof.
  intros Hq. revert n. induction chunks as [|bytes rest IH]; intros n; [done|].
  cbn. by rewrite IH, stat_append_other.
Qed.

Lemma stat_rm_other (p q : path) (n : node) :
  apart p q → stat (rm n p) q = stat n q.
Proof.
  revert q n. induction p as [|name rest IH]; intros q n [Hpq Hqp]; [done|].
  destruct n as [size | entries]; [done|].
  destruct q as [|x q']; [by destruct Hqp; apply prefix_nil|].
  cbn [rm]. destruct rest as [|name' rest'].
  - cbn. destruct (decide (x = name)) as [-> | Hne].
    + destruct Hpq. apply prefix_cons, prefix_nil.
    + by rewrite lookup_delete_ne.
  - destruct (entries !! name) as [child|] eqn:Hchild; [|done]. cbn [stat].
    destruct (decide (x = name)) as [-> | Hne].
    + rewrite lookup_insert_eq, Hchild. apply IH.
      split; by apply (not_prefix_cons name).
    + by rewrite lookup_insert_ne.
Qed.

Lemma stat_pipe_size (chunks : list N) (n : node) (p : path) (size : N) :
  stat n p = Some (File size) →
  stat (foldl (λ n' bytes, append n' p bytes) n chunks) p
  = Some (File (size + total chunks)).
Proof.
  revert n size. induction chunks as [|bytes rest IH]; intros n size Hstat.
  - cbn. by rewrite N.add_0_r.
  - cbn. rewrite (IH _ (size + bytes)%N) by by apply stat_append.
    by rewrite (assoc_L N.add).
Qed.

Lemma mkdirp_empty (q : path) : is_Some (mkdirp (Dir ∅) q).
Proof.
  induction q as [|name rest [child IH]]; [by eexists|].
  cbn. rewrite lookup_empty. cbn. rewrite IH. by eexists.
Qed.

Lemma mkdirp_empty_fresh (p : path) (n' : node) :
  mkdirp (Dir ∅) p = Some n' → stat n' p = Some (Dir ∅).
Proof.
  revert n'. induction p as [|name rest IH]; intros n' Hmk.
  - by injection Hmk as <-.
  - cbn in Hmk. rewrite lookup_empty in Hmk. cbn in Hmk.
    destruct (mkdirp (Dir ∅) rest) as [child|] eqn:Hrec; [|done].
    injection Hmk as <-. cbn. rewrite lookup_insert_eq. by apply IH.
Qed.

Lemma mkdirp_fresh (p : path) (n n' : node) :
  stat n p = None → mkdirp n p = Some n' → stat n' p = Some (Dir ∅).
Proof.
  revert n n'. induction p as [|name rest IH]; intros n n' Hnone Hmk; [done|].
  destruct n as [size | entries]; [done|]. cbn in Hnone, Hmk.
  destruct (entries !! name) as [child|] eqn:Hchild; cbn in Hmk.
  - destruct (mkdirp child rest) as [child'|] eqn:Hrec; [|done].
    injection Hmk as <-. cbn. rewrite lookup_insert_eq. by apply (IH child).
  - destruct (mkdirp (Dir ∅) rest) as [child'|] eqn:Hrec; [|done].
    injection Hmk as <-. cbn. rewrite lookup_insert_eq.
    by apply mkdirp_empty_fresh.
Qed.

Lemma mkdirp_below (p q : path) (n : node) :
  stat n p = Some (Dir ∅) → is_Some (mkdirp n (p ++ q)).
Proof.
  revert n. induction p as [|name rest IH]; intros n Hstat.
  - injection Hstat as ->. apply mkdirp_empty.
  - destruct n as [size | entries]; [done|]. cbn in Hstat |- *.
    destruct (entries !! name) as [child|] eqn:Hchild; [|done]. cbn.
    destruct (IH child Hstat) as [child' ->]. by eexists.
Qed.

Lemma stat_below_empty (n : node) (p q : path) :
  stat n p = Some (Dir ∅) → q ≠ [] → stat n (p ++ q) = None.
Proof. intros Hp Hq. rewrite stat_app, Hp. cbn. by apply stat_empty_dir. Qed.

Lemma prefix_snoc_cases (q c : path) (x : string) :
  q `prefix_of` (c ++ [x]) → q `prefix_of` c ∨ q = c ++ [x].
Proof.
  intros [k Hk]. destruct k as [|y k' _] using rev_ind.
  - right. by rewrite app_nil_r in Hk.
  - left. rewrite (assoc_L (++)) in Hk. apply app_inj_tail in Hk as [-> _].
    by eexists.
Qed.

Lemma apart_child (c q : path) (x : string) :
  apart c q → ¬ q `prefix_of` (c ++ [x]).
Proof.
  intros [Hcq Hqc] Hq. destruct (prefix_snoc_cases q c x Hq) as [? | ->]; [done|].
  apply Hcq. by eexists.
Qed.

Lemma apart_app (p q sub : path) : apart p q → apart (p ++ sub) q.
Proof.
  intros [Hpq Hqp]. split.
  - intros [k ->]. apply Hpq. exists (sub ++ k). by rewrite (assoc_L (++)).
  - intros Hpre.
    destruct (prefix_weak_total q p (p ++ sub)) as [? | ?];
      [done | by apply prefix_app_r | done..].
Qed.

Lemma stat_rm_partly_other (removed : list path) (p q : path) (n : node) :
  apart p q →
  stat (foldl (λ n' sub, rm n' (p ++ sub)) n removed) q = stat n q.
Proof.
  intros Hapart. revert n. induction removed as [|sub rest IH]; intros n; [done|].
  cbn. rewrite IH. by apply stat_rm_other, apart_app.
Qed.

Lemma open_w_below_file (n : node) (p : path) (name : string) (size : N) :
  stat n p = Some (File size) → open_w n (p ++ [name]) = None.
Proof.
  revert n. induction p as [|x rest IH]; intros n Hstat.
  - injection Hstat as ->. done.
  - destruct n as [size' | entries]; [done|]. cbn in *.
    destruct (entries !! x) as [child|]; [|done]. by rewrite (IH child).
Qed.

Lemma open_w_in_dir (n : node) (p : path) (name : string) (entries : gmap string node) :
  stat n p = Some (Dir entries) → stat n (p ++ [name]) = None →
  is_Some (open_w n (p ++ [name])).
Proof.
  revert n. induction p as [|x rest IH]; intros n Hstat Hfile.
  - injection Hstat as ->. cbn in *.
    destruct (entries !! name) as [child|]; [done | by eexists].
  - destruct n as [size' | entries']; [done|]. cbn in *.
    destruct (entries' !! x) as [child|]; [|done].
    destruct (IH child Hstat Hfile) as [child' ->]. by eexists.
Qed.

(** *** The handlers *)

Example first_download :
  ∃ w, download_internvideo2 (Some ["models"]) served empty_disk
       = (Returns (Resolved (mkResult true (Some "InternVideo2 download completed") None)), w)
       ∧ stat (fs w) ["models"; "checkpoints"; "InternVideo2_1B_S2.pth"]
         = Some (File 9216)
       ∧ requests w = [model_url]
       ∧ timers w = [300000%Z].
Proof. eexists. split; [vm_compute; reflexivity|]. repeat split; vm_compute; reflexivity. Qed.

Example download_not_found :
  ∃ w, download_internvideo2 (Some ["models"]) not_found empty_disk
       = (Returns (Resolved (mkResult false None (Some "HTTP 404: Not Found"))), w)
       ∧ fs w = Dir {[ "models" := Dir ∅ ]}
       ∧ console w = [].
Proof. eexists. split; [vm_compute; reflexivity|]. split; vm_compute; reflexivity. Qed.

Example download_under_a_file :
  download_internvideo2 (Some ["models"]) served
    (mkWorld (Dir {[ "models" := File 3 ]}) [] [] [])
  = (Returns (Resolved (mkResult false None (Some "ENOTDIR: not a directory, mkdir"))),
     mkWorld (Dir {[ "models" := File 3 ]}) [] [] []).
Proof. vm_compute. reflexivity. Qed.

(** A regular file where the checkpoints directory should be: the write
    stream cannot be opened, and no listener hears of it.  A 404 still
    reaches the response callback, whose clean-up removes that file; a 200
    response is written nowhere and never finishes. *)
Example download_blocked :
  (∃ w, download_internvideo2 (Some ["models"]) not_found blocked_disk
        = (Returns (Resolved (mkResult false None (Some "HTTP 404: Not Found"))), w)
        ∧ fs w = Dir {[ "models" := Dir ∅ ]})
  ∧ (∃ w, download_internvideo2 (Some ["models"]) served blocked_disk
          = (Returns Unsettled, w)
          ∧ fs w = fs blocked_disk
          ∧ requests w = [model_url]).
Proof.
  split; eexists; (split; [vm_compute; reflexivity|]); repeat split; vm_compute; reflexivity.
Qed.

(** A 200 response whose connection closes before the body is complete
    raises none of the events the handler listens to: the promise stays
    pending, nothing is cleaned up, and the partial file is taken for the
    model by a later check. *)
Example download_cut_short :
  ∃ w, download_internvideo2 (Some ["models"]) closed_midway empty_disk
       = (Returns Unsettled, w)
       ∧ stat (fs w) ["models"; "checkpoints"; "InternVideo2_1B_S2.pth"]
         = Some (File 4096)
       ∧ (check_model_files (Some ["models"]) w).1 = Returns (mkModelFiles true).
Proof. eexists. split; [vm_compute; reflexivity|]. split; vm_compute; reflexivity. Qed.

(** The timeout fires, the destroyed request raises its error event, and
    the host refuses each removal after deleting the file: two clean-ups,
    two lines on the console, and the directory stays. *)
Example download_timeout_cleans_twice :
  ∃ w, download_internvideo2 (Some ["models"]) timed_out_busy empty_disk
       = (Returns (Resolved (mkResult false None (Some "Download timeout"))), w)
       ∧ fs w = Dir {[ "models" := Dir {[ "checkpoints" := Dir ∅ ]} ]}
       ∧ console w
         = ["Failed to cleanup checkpoints directory: EBUSY: resource busy or locked, rmdir";
            "Failed to cleanup checkpoints directory: EBUSY: resource busy or locked, rmdir"].
Proof. eexists. split; [vm_compute; reflexivity|]. split; vm_compute; reflexivity. Qed.

Lemma check_model_files_eq (storeDirectory : option path) (w : World) :
  check_model_files storeDirectory w =
  (Returns (mkModelFiles
     match storeDirectory with
     | Some dir =>
         bool_decide (is_Some (stat (fs w) (dir ++ ["checkpoints"; model_file])))
     | None => false
     end), w).
Proof.
  destruct storeDirectory as [dir|]; [|reflexivity].
  models_unfold.
  destruct (stat (fs w) (dir ++ ["checkpoints"; model_file])) eqn:Hstat.
  - by rewrite bool_decide_eq_true_2.
  - rewrite bool_decide_eq_false_2; [done|]. by intros [? [=]].
Qed.

Lemma download_when_present (dir : path) (env : Environment) (w : World) :
  is_Some (stat (fs w) (dir ++ ["checkpoints"; model_file])) →
  download_internvideo2 (Some dir) env w = (Returns already_there, w).
Proof.
  intros Hfile.
  assert (Hcp : is_Some (stat (fs w) (dir ++ ["checkpoints"]))).
  { apply (stat_prefix _ _ [model_file]). by rewrite <-(assoc_L (++)). }
  assert (Hdir : is_Some (stat (fs w) dir)) by by apply (stat_prefix _ _ ["checkpoints"]).
  models_unfold.
  rewrite (bool_decide_eq_true_2 _ Hdir). cbn.
  rewrite (bool_decide_eq_true_2 _ Hcp). cbn.
  rewrite <-(assoc_L (++)). cbn.
  destruct Hfile as [n' ->]. done.
Qed.

Ltac transfer_cases env w file :=
  cbv [transfer on_interruption cleanup createWriteStream pipe rmSync https_get
       request_setTimeout console_error failure set_fs]; eff_unfold;
  destruct (open_w (fs w) file) as [opened|] eqn:Hopen;
  destruct env as [[code text chunks [ | msg | [msg | [hang | ]] | ]
                   | [msg | [hang | ]]] [reason | ] removed];
  cbn; try (destruct (code =? 200)%Z eqn:Hcode); cbn.

Lemma transfer_returns (checkpointsDir file : path) (env : Environment) (w : World) :
  ∃ c w', transfer checkpointsDir file env w = (Returns c, w')
          ∧ requests w' = requests w ++ [model_url]
          ∧ timers w' = timers w ++ [timeout_ms].
Proof. transfer_cases env w file; by do 2 eexists. Qed.


Lemma transfer_success (checkpointsDir file : path) (env : Environment)
    (w : World) (r : DownloadResult) :
  (transfer checkpointsDir file env w).1 = Returns (Resolved r) →
  success r = true →
  is_Some (stat (fs (transfer checkpointsDir file env w).2) file).
Proof.
  transfer_cases env w file; intros [= <-]; try done.
  all: intros _; by apply (stat_pipe _ _ _ 0%N), (stat_open_w (fs w)).
Qed.

Lemma try_transfer (checkpointsDir file : path) (env : Environment) (w : World) :
  (let (o, s') := transfer checkpointsDir file env w in
   match o with
   | Returns a => (Returns a, s')
   | Throws e => (Returns (failure e), s')
   end) = transfer checkpointsDir file env w.
Proof.
  by destruct (transfer_returns checkpointsDir file env w) as (c & w' & -> & _).
Qed.

Lemma open_w_no_parent (n : node) (p : path) (name : string) :
  stat n p = None → open_w n (p ++ [name]) = None.
Proof.
  revert n. induction p as [|x rest IH]; intros n Hstat; [done|].
  destruct n as [size | entries]; [done|]. cbn in *.
  destruct (entries !! x) as [child|].
  - by rewrite (IH child).
  - by destruct rest.
Qed.

Lemma opened_unless_file (n : node) (cp : path) (name : string) :
  stat n (cp ++ [name]) = None →
  bool_decide (is_Some (open_w n (cp ++ [name])))
  = match stat n cp with
    | Some (Dir _) => true
    | _ => false
    end.
Proof.
  intros Hfile. destruct (stat n cp) as [[size | entries]|] eqn:Hcp.
  - by rewrite (open_w_below_file _ _ _ _ Hcp).
  - by apply bool_decide_eq_true_2, (open_w_in_dir _ _ _ entries).
  - by rewrite (open_w_no_parent _ _ _ Hcp).
Qed.

(** How the handler goes, in full: it fails before anything happened, it
    finds the file, or it creates what is missing of the directories and
    starts the transfer; the write stream can then be opened unless a
    regular file sits where the checkpoints directory should be. *)
Lemma download_shape (dir : path) (env : Environment) (w : World) :
  (∃ msg, download_internvideo2 (Some dir) env w = (Returns (failure msg), w)
          ∧ stat (fs w) (dir ++ ["checkpoints"; model_file]) = None)
  ∨ (download_internvideo2 (Some dir) env w = (Returns already_there, w)
     ∧ is_Some (stat (fs w) (dir ++ ["checkpoints"; model_file])))
  ∨ (∃ w1,
       download_internvideo2 (Some dir) env w
       = transfer (dir ++ ["checkpoints"]) (dir ++ ["checkpoints"; model_file]) env w1
       ∧ requests w1 = requests w ∧ console w1 = console w ∧ timers w1 = timers w
       ∧ bool_decide (is_Some (open_w (fs w1) (dir ++ ["checkpoints"; model_file])))
         = negb (blocked w dir)
       ∧ stat (fs w) (dir ++ ["checkpoints"; model_file]) = None
       ∧ stat (fs w1) (dir ++ ["checkpoints"; model_file]) = None
       ∧ ∀ q, ¬ q `prefix_of` (dir ++ ["checkpoints"]) →
              stat (fs w1) q = stat (fs w) q).
Proof.
  cbv [download_internvideo2 join_arg existsSync mkdirSync access join set_fs blocked];
    eff_unfold.
  rewrite <-!(assoc_L (++)), app_nil_r. cbn [app].
  destruct w as [n reqs tms out]. cbn [fs requests console timers].
  assert (Hsplit : dir ++ ["checkpoints"; model_file]
                   = (dir ++ ["checkpoints"]) ++ [model_file])
    by by rewrite <-(assoc_L (++)).
  destruct (bool_decide (is_Some (stat n dir))) eqn:Hdir; cbn.
  - destruct (bool_decide (is_Some (stat n (dir ++ ["checkpoints"])))) eqn:Hcp; cbn.
    + destruct (stat n (dir ++ ["checkpoints"; model_file])) eqn:Hfile; cbn.
      * right. left. split; [done | by eexists].
      * right. right. exists (mkWorld n reqs tms out). split; [apply try_transfer|].
        cbn. repeat split; try done.
        rewrite Hsplit in Hfile |- *. rewrite (opened_unless_file _ _ _ Hfile).
        by destruct (stat n (dir ++ ["checkpoints"])) as [[]|].
    + apply bool_decide_eq_false_1 in Hcp.
      assert (Hnone : stat n (dir ++ ["checkpoints"]) = None).
      { destruct (stat n (dir ++ ["checkpoints"])); [by destruct Hcp|done]. }
      destruct (mkdirp n (dir ++ ["checkpoints"])) as [n1|] eqn:Hmk; cbn.
      * pose proof (mkdirp_fresh _ _ _ Hnone Hmk) as Hfresh.
        pose proof (stat_below_empty n1 _ [model_file] Hfresh) as Hfile.
        rewrite <-(assoc_L (++)) in Hfile. cbn [app] in Hfile.
        rewrite Hfile by done. cbn.
        right. right. exists (mkWorld n1 reqs tms out). split; [apply try_transfer|].
        cbn. repeat split; try done.
        -- rewrite Hnone, Hsplit, opened_unless_file by (by rewrite <-Hsplit, Hfile).
           by rewrite Hfresh.
        -- rewrite Hsplit. by apply stat_none_below.
        -- by rewrite Hfile.
        -- intros q Hq. by apply (stat_mkdirp_other (dir ++ ["checkpoints"])).
      * left. eexists. split; [done|].
        rewrite Hsplit. by apply stat_none_below.
  - apply bool_decide_eq_false_1 in Hdir.
    assert (Hnone : stat n dir = None).
    { destruct (stat n dir); [by destruct Hdir|done]. }
    destruct (mkdirp n dir) as [n0|] eqn:Hmk0; cbn;
      [|left; eexists; split; [done | by apply stat_none_below]].
    pose proof (mkdirp_fresh _ _ _ Hnone Hmk0) as Hfresh0.
    pose proof (stat_below_empty n0 _ ["checkpoints"] Hfresh0) as Hcp.
    rewrite Hcp by done. rewrite bool_decide_eq_false_2 by by intros [? [=]]. cbn.
    destruct (mkdirp_below dir ["checkpoints"] n0 Hfresh0) as [n1 Hmk1].
    rewrite Hmk1. cbn.
    pose proof (mkdirp_fresh _ _ _ (Hcp ltac:(done)) Hmk1) as Hfresh1.
    pose proof (stat_below_empty n1 _ [model_file] Hfresh1) as Hfile.
    rewrite <-(assoc_L (++)) in Hfile. cbn [app] in Hfile.
    rewrite Hfile by done. cbn.
    right. right. exists (mkWorld n1 reqs tms out). split; [apply try_transfer|].
    cbn. repeat split; try done.
    + rewrite (stat_none_below _ _ ["checkpoints"] Hnone), Hsplit,
        opened_unless_file by (by rewrite <-Hsplit, Hfile).
      by rewrite Hfresh1.
    + by apply stat_none_below.
    + by rewrite Hfile.
    + intros q Hq.
      rewrite (stat_mkdirp_other (dir ++ ["checkpoints"]) q n0 n1 Hmk1 Hq).
      apply (stat_mkdirp_other dir q n n0 Hmk0).
      intros Hp. apply Hq. by apply prefix_app_r.
Qed.

Lemma transfer_frame (checkpointsDir file q : path) (env : Environment) (w : World) :
  apart checkpointsDir q → ¬ q `prefix_of` file →
  stat (fs (transfer checkpointsDir file env w).2) q = stat (fs w) q.
Proof.
  intros Hapart Hfile. transfer_cases env w file; try done.
  all: rewrite ?(stat_rm_partly_other _ _ _ _ Hapart), ?(stat_rm_other _ _ _ Hapart),
         ?stat_pipe_other by done.
  all: try done; by apply (stat_open_w_other file).
Qed.

Lemma transfer_completed (checkpointsDir file : path) (env : Environment)
    (w : World) (r : DownloadResult) :
  (transfer checkpointsDir file env w).1 = Returns (Resolved r) →
  success r = true →
  ∃ text chunks,
    network env = Responded 200 text chunks finish
    ∧ stat (fs (transfer checkpointsDir file env w).2) file
      = Some (File (total chunks)).
Proof.
  transfer_cases env w file; intros [= <-]; try done.
  all: intros _; apply Z.eqb_eq in Hcode as ->; do 2 eexists; split; [done|].
  all: by rewrite (stat_pipe_size _ _ _ 0%N) by by apply (stat_open_w (fs w)).
Qed.

Lemma transfer_failed_clean (checkpointsDir file : path) (env : Environment)
    (w : World) (r : DownloadResult) :
  checkpointsDir ≠ [] →
  rm_refusal env = None →
  (transfer checkpointsDir file env w).1 = Returns (Resolved r) →
  success r = false →
  stat (fs (transfer checkpointsDir file env w).2) checkpointsDir = None.
Proof.
  intros Hdir. transfer_cases env w file; intros Hrm [= <-]; try done.
  all: intros _; cbn; by apply stat_rm.
Qed.

Lemma download_success_present (dir : path) (env : Environment)
    (w : World) (r : DownloadResult) :
  (download_internvideo2 (Some dir) env w).1 = Returns (Resolved r) →
  success r = true →
  is_Some (stat (fs (download_internvideo2 (Some dir) env w).2)
                (dir ++ ["checkpoints"; model_file])).
Proof.
  intros Hres Hok.
  destruct (download_shape dir env w)
    as [(msg & Heq & _) | [(Heq & Hthere) | (w1 & Heq & _)]];
    rewrite Heq in Hres |- *.
  - by injection Hres as <-.
  - done.
  - by apply (transfer_success _ _ env w1 r).
Qed.

(** C4.  When the destination file is there as the handler is called
    (because it was there all along, or because an earlier call of the
    handler for the same directory resolved with success and left this
    world), the handler resolves with success at once: it sends no request
    and changes nothing. *)
Theorem download_short_circuit (dir : path) (env : Environment) (w : World) :
  is_Some (stat (fs w) (dir ++ ["checkpoints"; "InternVideo2_1B_S2.pth"]))
  ∨ (∃ env0 w0 r,
        download_internvideo2 (Some dir) env0 w0 = (Returns (Resolved r), w)
        ∧ success r = true) →
  download_internvideo2 (Some dir) env w
  = (Returns (Resolved (mkResult true (Some "InternVideo2 model already exists") None)), w)
  ∧ requests (download_internvideo2 (Some dir) env w).2 = requests w.
Proof.
  intros Hthere.
  assert (Hfile : is_Some (stat (fs w) (dir ++ ["checkpoints"; model_file]))).
  { destruct Hthere as [Hfile | (env0 & w0 & r & Hfirst & Hok)]; [done|].
    pose proof (download_success_present dir env0 w0 r) as Hs.
    rewrite Hfirst in Hs. by apply Hs. }
  by rewrite (download_when_present dir env w Hfile).
Qed.

Lemma download_short_circuit_witness :
  (download_internvideo2 (Some ["models"]) served empty_disk).1
  = Returns (Resolved (mkResult true (Some "InternVideo2 download completed") None))
  ∧ requests (download_internvideo2 (Some ["models"]) served empty_disk).2
    = [model_url]
  ∧ download_internvideo2 (Some ["models"]) not_found
      (download_internvideo2 (Some ["models"]) served empty_disk).2
    = (Returns (Resolved (mkResult true (Some "InternVideo2 model already exists") None)),
       (download_internvideo2 (Some ["models"]) served empty_disk).2)
  ∧ requests
      (download_internvideo2 (Some ["models"]) not_found
         (download_internvideo2 (Some ["models"]) served empty_disk).2).2
    = [model_url].
Proof.
  split; [vm_compute; reflexivity|]. split; [vm_compute; reflexivity|].
  assert (H := download_short_circuit ["models"] not_found
                 (download_internvideo2 (Some ["models"]) served empty_disk).2).
  destruct H as [H1 H2].
  - right. exists served, empty_disk. eexists.
    split; [vm_compute; reflexivity | reflexivity].
  - split; [exact H1|]. etrans; [exact H2 | vm_compute; reflexivity].
Defined.




(** C6.  For every store directory, ['check-model-files'] answers
    [internvideo2 = true] exactly when
    [<storeDirectory>/checkpoints/InternVideo2_1B_S2.pth] can be reached on
    disk, and [false] in every other case (an argument [path.join] rejects
    included); it returns in every case and changes nothing. *)
Theorem check_model_files_reports_presence (storeDirectory : option path) (w : World) :
  check_model_files storeDirectory w =
  (Returns (mkModelFiles
     match storeDirectory with
     | Some dir =>
         match stat (fs w) (dir ++ ["checkpoints"; "InternVideo2_1B_S2.pth"]) with
         | Some _ => true
         | None => false
         end
     | None => false
     end), w).
Proof.
  rewrite check_model_files_eq. destruct storeDirectory as [dir|]; [|done].
  do 3 f_equal. change model_file with "InternVideo2_1B_S2.pth".
  destruct (stat _ _).
  - by apply bool_decide_eq_true_2.
  - apply bool_decide_eq_false_2. by intros [? [=]].
Qed.

(** *** Further properties of the handlers *)

(** X8.  The download handler acts on the checkpoints directory and on the
    chain of directories leading to it, and on nothing else: in every run
    (short-circuit, success, any failure, with or without clean-up), every
    path that neither leads to [<storeDirectory>/checkpoints] nor lies under
    it is the same after the call as before. *)
Theorem download_touches_only_checkpoints (dir q : path) (env : Environment) (w : World) :
  apart (dir ++ ["checkpoints"]) q →
  stat (fs (download_internvideo2 (Some dir) env w).2) q = stat (fs w) q.
Proof.
  intros Hapart.
  destruct (download_shape dir env w)
    as [(msg & -> & _) | [(-> & _) | (w1 & -> & _ & _ & _ & _ & _ & _ & Hsame)]]; [done..|].
  rewrite transfer_frame; [|done|].
  - apply Hsame, Hapart.
  - change (dir ++ ["checkpoints"; model_file])
      with (dir ++ ["checkpoints"] ++ [model_file]).
    rewrite (assoc_L (++)). by apply apart_child.
Qed.

Lemma download_touches_only_checkpoints_witness :
  stat (fs (download_internvideo2 (Some ["models"]) reset_midway used_disk).2)
       ["models"; "notes.txt"] = Some (File 12)
  ∧ stat (fs (download_internvideo2 (Some ["models"]) reset_midway used_disk).2)
         ["models"; "checkpoints"; "other.pth"] = None.
Proof.
  split; [|vm_compute; reflexivity].
  rewrite (download_touches_only_checkpoints ["models"] ["models"; "notes.txt"]).
  - reflexivity.
  - split; intros [k Hk]; discriminate Hk.
Defined.

(** X9.  A download that had to fetch the file and resolves with success
    leaves on disk a file whose size is the number of bytes the response
    delivered; this happens only for a response with status 200 that ran to
    its end, and exactly one request was sent. *)
Theorem downloaded_file_is_complete (dir : path) (env : Environment)
    (w : World) (r : DownloadResult) :
  stat (fs w) (dir ++ ["checkpoints"; "InternVideo2_1B_S2.pth"]) = None →
  (download_internvideo2 (Some dir) env w).1 = Returns (Resolved r) →
  success r = true →
  ∃ text chunks,
    network env = Responded 200 text chunks finish
    ∧ stat (fs (download_internvideo2 (Some dir) env w).2)
           (dir ++ ["checkpoints"; "InternVideo2_1B_S2.pth"])
      = Some (File (total chunks))
    ∧ requests (download_internvideo2 (Some dir) env w).2
      = requests w ++ [model_url].
Proof.
  intros Habsent Hres Hok.
  destruct (download_shape dir env w)
    as [(msg & Heq & _) | [(Heq & Hthere) | (w1 & Heq & Hreq & _)]];
    rewrite Heq in Hres |- *.
  - by injection Hres as <-.
  - change model_file with "InternVideo2_1B_S2.pth" in Hthere.
    rewrite Habsent in Hthere. by destruct Hthere.
  - destruct (transfer_completed _ _ env w1 r Hres Hok) as (text & chunks & Hnet & Hsize).
    exists text, chunks. split; [done|]. split; [done|].
    destruct (transfer_returns (dir ++ ["checkpoints"])
                (dir ++ ["checkpoints"; model_file]) env w1) as (c & w' & -> & Hone & _).
    cbn. by rewrite Hone, Hreq.
Qed.

Lemma downloaded_file_is_complete_witness :
  ∃ text chunks,
    network served = Responded 200 text chunks finish
    ∧ stat (fs (download_internvideo2 (Some ["models"]) served empty_disk).2)
           ["models"; "checkpoints"; "InternVideo2_1B_S2.pth"]
      = Some (File (total chunks))
    ∧ requests (download_internvideo2 (Some ["models"]) served empty_disk).2
      = [model_url].
Proof.
  apply (downloaded_file_is_complete ["models"] served empty_disk
           (mkResult true (Some "InternVideo2 download completed") None));
    vm_compute; reflexivity.
Defined.

(** X10.  Download and check agree: after any call of the download handler
    that resolves with success, ['check-model-files'] for the same directory
    reports the model present. *)
Theorem download_then_check (dir : path) (env : Environment)
    (w : World) (r : DownloadResult) :
  (download_internvideo2 (Some dir) env w).1 = Returns (Resolved r) →
  success r = true →
  (check_model_files (Some dir) (download_internvideo2 (Some dir) env w).2).1
  = Returns (mkModelFiles true).
Proof.
  intros Hres Hok. rewrite check_model_files_eq. cbn [fst]. do 2 f_equal.
  apply bool_decide_eq_true_2.
  destruct (download_shape dir env w)
    as [(msg & Heq & _) | [(Heq & Hthere) | (w1 & Heq & _)]];
    rewrite Heq in Hres |- *.
  - by injection Hres as <-.
  - done.
  - by apply (transfer_success _ _ env w1 r).
Qed.

Lemma download_then_check_witness :
  (check_model_files (Some ["models"])
     (download_internvideo2 (Some ["models"]) served used_disk).2).1
  = Returns (mkModelFiles true).
Proof.
  apply (download_then_check ["models"] served used_disk
           (mkResult true (Some "InternVideo2 download completed") None));
    vm_compute; reflexivity.
Defined.

(** X11.  One call of the download handler either does nothing at all (no
    request, no change on disk, nothing logged: the file was found, or a
    directory could not be created), or sends exactly one request, to the
    model's URL, and then the file was absent when the handler was called. *)
Theorem download_all_or_one_request (dir : path) (env : Environment) (w : World) :
  (download_internvideo2 (Some dir) env w).2 = w
  ∨ (requests (download_internvideo2 (Some dir) env w).2 = requests w ++ [model_url]
     ∧ stat (fs w) (dir ++ ["checkpoints"; "InternVideo2_1B_S2.pth"]) = None).
Proof.
  destruct (download_shape dir env w)
    as [(msg & -> & _) | [(-> & _) | (w1 & -> & Hreq & _ & _ & _ & Habsent & _)]];
    [by left.. |].
  right. split; [|done].
  destruct (transfer_returns (dir ++ ["checkpoints"])
              (dir ++ ["checkpoints"; model_file]) env w1) as (c & w' & -> & Hone & _).
  cbn. by rewrite Hone, Hreq.
Qed.

End ModelsFacts.

(** ** The wizard *)

Section WizardFacts.

Import Models Wizard.

Ltac wizard_unfold :=
  cbv [checkModelFiles downloadInternVideo2 refreshModelsStatus
       setInternvideo2Status setDownloadProgress setIsRefreshing alert on_ui
       invoke_main Eff.gets];
  eff_unfold.

Lemma refreshModelsStatus_eq (a : App) :
  refreshModelsStatus a =
  (Returns tt,
   match storeDirectory (ui a) with
   | None => a
   | Some dir =>
       if isRefreshing (ui a) then a else
       mkApp
         (mkCells (Some dir)
            match stat (fs (main a)) (dir ++ ["checkpoints"; "InternVideo2_1B_S2.pth"]) with
            | Some _ => completed
            | None => pending
            end
            match stat (fs (main a)) (dir ++ ["checkpoints"; "InternVideo2_1B_S2.pth"]) with
            | Some _ => 100%N
            | None => 0%N
            end
            false (alerts (ui a)))
         (main a)
   end).
Proof.
  destruct a as [[store st pr busy al] w]. wizard_unfold. cbn.
  destruct store as [dir|]; [|done]. destruct busy; [done|]. cbn.
  rewrite check_model_files_eq. cbn. change model_file with "InternVideo2_1B_S2.pth".
  destruct (stat (fs w) _) eqn:Hstat.
  - by rewrite bool_decide_eq_true_2.
  - by rewrite bool_decide_eq_false_2 by by intros [? [=]].
Qed.

(** X19.  A refresh shows what is on disk: with a store directory set and no
    refresh under way, [refreshModelsStatus] leaves the status [completed]
    with progress 100 when the model file can be reached, [pending] with
    progress 0 when it cannot, whatever the status was; it ends with
    [isRefreshing] false and changes nothing on disk.  Without a store
    directory, or while a refresh is under way, it does nothing. *)
Theorem refresh_shows_what_is_on_disk (a : App) :
  refreshModelsStatus a =
  (Returns tt,
   match storeDirectory (ui a) with
   | None => a
   | Some dir =>
       if isRefreshing (ui a) then a else
       mkApp
         (mkCells (Some dir)
            match stat (fs (main a)) (dir ++ ["checkpoints"; "InternVideo2_1B_S2.pth"]) with
            | Some _ => completed
            | None => pending
            end
            match stat (fs (main a)) (dir ++ ["checkpoints"; "InternVideo2_1B_S2.pth"]) with
            | Some _ => 100%N
            | None => 0%N
            end
            false (alerts (ui a)))
         (main a)
   end).
Proof. apply refreshModelsStatus_eq. Qed.

Lemma download_returns (dir : path) (env : Environment) (w : World) :
  ∃ c, (download_internvideo2 (Some dir) env w).1 = Returns c.
Proof.
  destruct (download_shape dir env w)
    as [(msg & -> & _) | [(-> & _) | (w1 & -> & _)]]; [by eexists..|].
  destruct (transfer_returns (dir ++ ["checkpoints"])
              (dir ++ ["checkpoints"; model_file]) env w1) as (c & w' & -> & _).
  by eexists.
Qed.

(** What [downloadInternVideo2] leaves, by the handler's completion. *)
Lemma wizard_download_eq (dir : path) (env : Environment) (a : App) :
  storeDirectory (ui a) = Some dir →
  ∃ c, (download_internvideo2 (Some dir) env (main a)).1 = Returns c
       ∧ main (downloadInternVideo2 env a).2
         = (download_internvideo2 (Some dir) env (main a)).2
       ∧ isRefreshing (ui (downloadInternVideo2 env a).2) = isRefreshing (ui a)
       ∧ storeDirectory (ui (downloadInternVideo2 env a).2) = Some dir
       ∧ internvideo2Status (ui (downloadInternVideo2 env a).2)
         = match c with
           | Resolved r => if success r then completed else error
           | Unsettled => downloading
           end.
Proof.
  intros Hdir. destruct (download_returns dir env (main a)) as [c Hc].
  exists c. split; [done|].
  destruct a as [[store st pr busy al] w]. cbn in Hdir. subst store.
  wizard_unfold. cbn in *.
  destruct (download_internvideo2 (Some dir) env w) as [o w']. cbn in Hc. subst o.
  cbn. destruct c as [[[] m e] | ]; by cbn.
Qed.

(** X23.  [checkModelFiles] answers from the disk and never throws: for the
    directory it is given, or else the stored one, it returns
    [internvideo2 = true] exactly when the model file can be reached there and
    sets the status to [completed] (with progress 100) or [pending]
    accordingly; unlike a refresh it leaves the progress as it was when the
    file is absent.  With no directory at all it returns [false] and changes
    nothing. *)
Theorem checkModelFiles_outcome (directory : option path) (a : App) :
  checkModelFiles directory a =
  match (match directory with Some d => Some d | None => storeDirectory (ui a) end) with
  | None => (Returns (mkModelFiles false), a)
  | Some target =>
      match stat (fs (main a)) (target ++ ["checkpoints"; "InternVideo2_1B_S2.pth"]) with
      | Some _ =>
          (Returns (mkModelFiles true),
           mkApp (mkCells (storeDirectory (ui a)) completed 100
                          (isRefreshing (ui a)) (alerts (ui a)))
                 (main a))
      | None =>
          (Returns (mkModelFiles false),
           mkApp (mkCells (storeDirectory (ui a)) pending (downloadProgress (ui a))
                          (isRefreshing (ui a)) (alerts (ui a)))
                 (main a))
      end
  end.
Proof.
  destruct a as [[store st pr busy al] w]. wizard_unfold. cbn.
  destruct (match directory with Some d => Some d | None => store end) as [target|];
    [|done].
  cbn. rewrite check_model_files_eq. cbn.
  change model_file with "InternVideo2_1B_S2.pth".
  destruct (stat (fs w) _) eqn:Hstat.
  - by rewrite bool_decide_eq_true_2.
  - by rewrite bool_decide_eq_false_2 by by intros [? [=]].
Qed.

(** X20.  The wizard shows [completed] after a download only when the model
    file is on disk: if [downloadInternVideo2] leaves the status
    [completed], the file can be reached, and a refresh made then confirms
    [completed] with progress 100. *)
Theorem completed_means_on_disk (dir : path) (env : Environment) (a : App) :
  storeDirectory (ui a) = Some dir →
  isRefreshing (ui a) = false →
  internvideo2Status (ui (downloadInternVideo2 env a).2) = completed →
  is_Some (stat (fs (main (downloadInternVideo2 env a).2))
                (dir ++ ["checkpoints"; "InternVideo2_1B_S2.pth"]))
  ∧ internvideo2Status (ui (refreshModelsStatus (downloadInternVideo2 env a).2).2)
    = completed
  ∧ downloadProgress (ui (refreshModelsStatus (downloadInternVideo2 env a).2).2)
    = 100%N.
Proof.
  intros Hdir Hidle Hdone.
  destruct (wizard_download_eq dir env a Hdir) as (c & Hc & Hmain & Hbusy & Hstore & Hst).
  rewrite Hdone in Hst.
  assert (Hfile : is_Some (stat (fs (main (downloadInternVideo2 env a).2))
                             (dir ++ ["checkpoints"; model_file]))).
  { rewrite Hmain. destruct c as [r|]; [|done].
    destruct (success r) eqn:Hok; [|done].
    by apply (download_success_present dir env (main a) r). }
  split; [done|].
  rewrite refreshModelsStatus_eq. cbn [snd].
  rewrite Hstore, Hbusy, Hidle. cbn.
  change model_file with "InternVideo2_1B_S2.pth" in Hfile.
  destruct Hfile as [n ->]. done.
Qed.

Lemma completed_means_on_disk_witness :
  is_Some (stat (fs (main (downloadInternVideo2 served
                             (configured ["models"] empty_disk)).2))
                ["models"; "checkpoints"; "InternVideo2_1B_S2.pth"])
  ∧ internvideo2Status
      (ui (refreshModelsStatus
             (downloadInternVideo2 served (configured ["models"] empty_disk)).2).2)
    = completed
  ∧ downloadProgress
      (ui (refreshModelsStatus
             (downloadInternVideo2 served (configured ["models"] empty_disk)).2).2)
    = 100%N.
Proof.
  apply (completed_means_on_disk ["models"] served (configured ["models"] empty_disk));
    vm_compute; reflexivity.
Defined.

(** X21.  After a download that the wizard reports as an error, and whose
    clean-up was not refused by the host, the model file is not on disk, and a
    refresh made then shows [pending] with progress 0: a failed download
    leaves nothing that a later check takes for the model. *)
Theorem error_then_refresh_is_pending (dir : path) (env : Environment) (a : App) :
  storeDirectory (ui a) = Some dir →
  isRefreshing (ui a) = false →
  rm_refusal env = None →
  internvideo2Status (ui (downloadInternVideo2 env a).2) = error →
  stat (fs (main (downloadInternVideo2 env a).2))
       (dir ++ ["checkpoints"; "InternVideo2_1B_S2.pth"]) = None
  ∧ internvideo2Status (ui (refreshModelsStatus (downloadInternVideo2 env a).2).2)
    = pending
  ∧ downloadProgress (ui (refreshModelsStatus (downloadInternVideo2 env a).2).2)
    = 0%N.
Proof.
  intros Hdir Hidle Hrm Herr.
  destruct (wizard_download_eq dir env a Hdir) as (c & Hc & Hmain & Hbusy & Hstore & Hst).
  rewrite Herr in Hst.
  assert (Hfile : stat (fs (main (downloadInternVideo2 env a).2))
                       (dir ++ ["checkpoints"; model_file]) = None).
  { rewrite Hmain. destruct c as [r|]; [|done].
    destruct (success r) eqn:Hok; [done|].
    destruct (download_shape dir env (main a))
      as [(msg & Heq & Habs) | [(Heq & _) | (w1 & Heq & _)]];
      rewrite Heq in Hc |- *.
    - done.
    - injection Hc as <-. done.
    - change (dir ++ ["checkpoints"; model_file])
        with (dir ++ ["checkpoints"] ++ [model_file]) at 2.
      rewrite (assoc_L (++)). apply stat_none_below.
      apply (transfer_failed_clean _ _ env w1 r); try done. by destruct dir. }
  split; [done|].
  rewrite refreshModelsStatus_eq. cbn [snd].
  rewrite Hstore, Hbusy, Hidle. cbn.
  change model_file with "InternVideo2_1B_S2.pth" in Hfile.
  by rewrite Hfile.
Qed.

Lemma error_then_refresh_is_pending_witness :
  stat (fs (main (downloadInternVideo2 not_found (configured ["models"] used_disk)).2))
       ["models"; "checkpoints"; "InternVideo2_1B_S2.pth"] = None
  ∧ internvideo2Status
      (ui (refreshModelsStatus
             (downloadInternVideo2 not_found (configured ["models"] used_disk)).2).2)
    = pending
  ∧ downloadProgress
      (ui (refreshModelsStatus
             (downloadInternVideo2 not_found (configured ["models"] used_disk)).2).2)
    = 0%N.
Proof.
  apply (error_then_refresh_is_pending ["models"] not_found
           (configured ["models"] used_disk));
    vm_compute; reflexivity.
Defined.

End WizardFacts.
